(** * LineDrive AI chat page: the session controller of [ChatInterface]

    The repository holds two variants of one React component:
    - [src/frontend/src/app/page.tsx]  (module [Page]),
    - [src/unnamed/part_000]           (module [Part0]), which adds the
      [isLoading] flag, its gate in [handleSend] and the [finally] reset.

    The component state ([useState] cells), the requests that are awaiting
    an outcome and the clock reads are threaded through a small state and
    exception monad.  The [async] handler [handleSend] is split where it
    awaits: [handleSend] is the run up to [await fetch(...)], and
    [handleSend_settled] the rest of the same call.  Nothing touches the
    state between the end of [fetch] and the end of [response.json()],
    so the two awaits are one event, [Settle].

    Markup, styling and scrolling are left out. *)

From Stdlib Require Import List NArith ZArith Bool Lia String Ascii.
Import ListNotations.

Set Implicit Arguments.

(* ================================================================== *)
(** ** JavaScript strings and the two built-ins the handlers call      *)
(* ================================================================== *)

Module Js.

(** A JavaScript string is a sequence of UTF-16 code units. *)
Definition jsstring := list N.

(** A source literal (the literals of both files are ASCII). *)
Definition lit (s : string) : jsstring :=
  map N_of_ascii (list_ascii_of_string s).

Definition in_range (lo hi c : N) : bool := (lo <=? c)%N && (c <=? hi)%N.

(** [String.prototype.trim] strips WhiteSpace and LineTerminator code
    units (ECMA-262, TrimString): TAB, VT, FF, SP, NBSP, ZWNBSP, the
    category Zs, and LF, CR, LS, PS. *)
Definition isWhiteSpaceOrLineTerminator (c : N) : bool :=
  (in_range 9 13 c || (c =? 32) || (c =? 160) || (c =? 5760)
   || in_range 8192 8202 c || (c =? 8232) || (c =? 8233) || (c =? 8239)
   || (c =? 8287) || (c =? 12288) || (c =? 65279))%N.

Fixpoint trimStart (s : jsstring) : jsstring :=
  match s with
  | [] => []
  | c :: s' => if isWhiteSpaceOrLineTerminator c then trimStart s' else s
  end.

Definition trimEnd (s : jsstring) : jsstring := rev (trimStart (rev s)).

Definition trim (s : jsstring) : jsstring := trimEnd (trimStart s).

(** [s === ''] *)
Definition is_empty (s : jsstring) : bool :=
  match s with [] => true | _ :: _ => false end.

(** uriUnreserved of [encodeURIComponent]: letters, digits and
    [- _ . ! ~ * ' ( )]. *)
Definition uriUnreserved (c : N) : bool :=
  (in_range 65 90 c || in_range 97 122 c || in_range 48 57 c
   || (c =? 45) || (c =? 95) || (c =? 46) || (c =? 33) || (c =? 126)
   || (c =? 42) || (c =? 39) || (c =? 40) || (c =? 41))%N.

Definition hexDigit (d : N) : N :=
  (if d <? 10 then 48 + d else 55 + d)%N.

(** One octet as [%XX], upper-case hexadecimal. *)
Definition percent (octet : N) : jsstring :=
  [37%N; hexDigit (N.shiftr octet 4); hexDigit (N.land octet 15)].

(** UTF-8 octets of a code point. *)
Definition utf8 (cp : N) : list N :=
  (if cp <? 128 then [cp]
   else if cp <? 2048 then
     [192 + N.shiftr cp 6; 128 + N.land cp 63]
   else if cp <? 65536 then
     [224 + N.shiftr cp 12; 128 + N.land (N.shiftr cp 6) 63;
      128 + N.land cp 63]
   else
     [240 + N.shiftr cp 18; 128 + N.land (N.shiftr cp 12) 63;
      128 + N.land (N.shiftr cp 6) 63; 128 + N.land cp 63])%N.

Definition isLeadingSurrogate (c : N) : bool := in_range 55296 56319 c.
Definition isTrailingSurrogate (c : N) : bool := in_range 56320 57343 c.

Definition escape (cp : N) : jsstring := flat_map percent (utf8 cp).

(** [encodeURIComponent] (ECMA-262, Encode): [None] is the [URIError]
    thrown at an unpaired surrogate. *)
Fixpoint encodeURIComponent (s : jsstring) : option jsstring :=
  match s with
  | [] => Some []
  | c :: rest =>
      if uriUnreserved c then option_map (cons c) (encodeURIComponent rest)
      else if isTrailingSurrogate c then None
      else if isLeadingSurrogate c then
        match rest with
        | [] => None
        | d :: rest' =>
            if isTrailingSurrogate d then
              option_map
                (app (escape ((c - 55296) * 1024 + (d - 56320) + 65536)%N))
                (encodeURIComponent rest')
            else None
        end
      else option_map (app (escape c)) (encodeURIComponent rest)
  end.

(** What [JSON.parse] can return, together with [undefined], which a
    property read yields when the property is absent.  A number is kept
    as its literal: the controller only carries it around. *)
#[warnings="-register-all"] Inductive value : Type :=
| JUndefined
| JNull
| JBool (b : bool)
| JNum (literal : jsstring)
| JStr (s : jsstring)
| JArr (items : list value)
| JObj (props : list (jsstring * value)).  (* own properties, each key once *)

Definition jsstring_eqb (a b : jsstring) : bool :=
  if list_eq_dec N.eq_dec a b then true else false.

Fixpoint lookup (k : jsstring) (props : list (jsstring * value))
  : option value :=
  match props with
  | [] => None
  | (k', v) :: ps => if jsstring_eqb k k' then Some v else lookup k ps
  end.

Inductive exn : Type :=
| TypeError      (* property read on null or undefined *)
| URIError       (* encodeURIComponent on an unpaired surrogate *)
| SyntaxError    (* response.json() on a body that is not JSON *)
| NetworkFailure (* fetch rejected *).

(** [data.answer]: a [TypeError] on [null] and [undefined], the own
    property of an object, [undefined] everywhere else (primitives and
    arrays have no property of that name). *)
Definition get_answer (data : value) : exn + value :=
  match data with
  | JUndefined | JNull => inl TypeError
  | JObj props =>
      match lookup (lit "answer") props with
      | Some v => inr v
      | None => inr JUndefined
      end
  | _ => inr JUndefined
  end.

End Js.
Import Js.

(* ================================================================== *)
(** ** Completions and the handler monad                               *)
(* ================================================================== *)

(** How a run of handler code ends: normally, by a thrown exception, or
    suspended at an [await] whose promise is not settled yet. *)
Inductive completion (A : Type) : Type :=
| Normal (a : A)
| Throw (e : exn)
| Suspended.
Arguments Throw {A} e.
Arguments Suspended {A}.

Definition M (S A : Type) : Type := S -> completion A * S.

Definition ret {S A} (a : A) : M S A := fun s => (Normal a, s).

Definition bind {S A B} (m : M S A) (k : A -> M S B) : M S B :=
  fun s =>
    match m s with
    | (Normal a, s') => k a s'
    | (Throw e, s') => (Throw e, s')
    | (Suspended, s') => (Suspended, s')
    end.

Definition throw {S A} (e : exn) : M S A := fun s => (Throw e, s).
Definition await_pending {S A} : M S A := fun s => (Suspended, s).
Definition get {S} : M S S := fun s => (Normal s, s).
Definition modify {S} (f : S -> S) : M S unit := fun s => (Normal tt, f s).

Definition lift_result {S A} (r : exn + A) : M S A :=
  match r with inl e => throw e | inr a => ret a end.

Declare Scope handler_scope.
Delimit Scope handler_scope with handler.
Notation "x <- m ; k" := (bind m (fun x => k))
  (at level 61, m at next level, right associativity) : handler_scope.
Notation "m ;; k" := (bind m (fun _ => k))
  (at level 61, right associativity) : handler_scope.
Open Scope handler_scope.

(** [try { body } catch (error) { handler }].  A body suspended at an
    [await] leaves the statement pending: the rest of the body runs when
    the promise settles. *)
Definition try_catch {S} (body : M S unit) (handler : exn -> M S unit)
  : M S unit :=
  fun s =>
    match body s with
    | (Throw e, s') => handler e s'
    | r => r
    end.

(** [try { body } catch (error) { handler } finally { final }]: the
    finaliser runs after the body, or after the handler, however they
    complete, and not while the body is suspended. *)
Definition try_catch_finally {S} (body : M S unit)
    (handler : exn -> M S unit) (final : M S unit) : M S unit :=
  fun s =>
    match try_catch body handler s with
    | (Suspended, s') => (Suspended, s')
    | (Normal _, s') => final s'
    | (Throw e, s') =>
        match final s' with
        | (Normal _, s'') => (Throw e, s'')
        | r => r
        end
    end.

(** Calling an [async] function without awaiting it: the caller receives
    a promise and goes on, whatever the completion of the callee. *)
Definition spawn {S} (m : M S unit) : M S unit :=
  fun s => (Normal tt, snd (m s)).

(* ================================================================== *)
(** ** Messages, requests and the environment of the component         *)
(* ================================================================== *)

Inductive Sender : Type := user | assistant.

(** A [Date] is kept as its time value in milliseconds. *)
Record Message : Type := {
  id : Z;
  text : value;
  sender : Sender;
  timestamp : Z
}.

Record Request : Type := { url : jsstring; method : jsstring }.

(** How an issued [fetch] ends, with the body as [response.json()] sees
    it: [None] when it is not JSON. *)
Inductive outcome : Type :=
| NetworkError
| Response (status : N) (body : option value).

(** The clock: [now env k] is what the [k]-th call of [Date.now()]
    returns, [date env k] the time value of the [k]-th [new Date()]. *)
Record Env : Type := { now : nat -> Z; date : nat -> Z }.

(** The [useState] cells of the component ([comp]) and around them the
    requests not settled yet and the number of clock reads so far. *)
Record World (C : Type) : Type := {
  comp : C;
  inflight : list Request;
  nowCalls : nat;
  dateCalls : nat
}.

Record KeyEvent : Type := { key : jsstring; shiftKey : bool }.

Inductive event : Type :=
| Change (value : jsstring)          (* onChange of the textarea *)
| KeyDown (e : KeyEvent)             (* onKeyDown of the textarea *)
| Click                              (* onClick of the send button;
                                        it stands for any call of
                                        handleSend, the disabled
                                        attribute is not relied on *)
| Settle (i : nat) (o : outcome).    (* the i-th pending request ends *)

Definition greeting : jsstring :=
  lit "Hello! I'm LineDrive AI, an AI assistant created to answer questions about MLB players. How can I help you today?".

Definition apology : jsstring :=
  lit "Sorry, I encountered an error. Please try again later.".

Definition endpoint : jsstring := lit "http://localhost:8000/chat?question=".

Definition seed (t : Z) : Message :=
  {| id := 1; text := JStr greeting; sender := assistant; timestamp := t |}.

Section Effects.
Variable env : Env.
Variable C : Type.

Definition with_comp (f : C -> C) (w : World C) : World C :=
  {| comp := f (comp w); inflight := inflight w;
     nowCalls := nowCalls w; dateCalls := dateCalls w |}.

Definition Date_now : M (World C) Z :=
  fun w => (Normal (now env (nowCalls w)),
            {| comp := comp w; inflight := inflight w;
               nowCalls := S (nowCalls w); dateCalls := dateCalls w |}).

Definition new_Date : M (World C) Z :=
  fun w => (Normal (date env (dateCalls w)),
            {| comp := comp w; inflight := inflight w;
               nowCalls := nowCalls w; dateCalls := S (dateCalls w) |}).

(** [fetch(url, {method})] puts the request on the wire. *)
Definition fetch (u m : jsstring) : M (World C) unit :=
  modify (fun w =>
    {| comp := comp w;
       inflight := inflight w ++ [{| url := u; method := m |}];
       nowCalls := nowCalls w; dateCalls := dateCalls w |}).

(** The template literal of the request:
    [`http://localhost:8000/chat?question=${encodeURIComponent(inputValue)}`]. *)
Definition request_url (inputValue : jsstring) : M (World C) jsstring :=
  match encodeURIComponent inputValue with
  | Some q => ret (endpoint ++ q)
  | None => throw URIError
  end.

(** [await fetch(...)] once the request has ended: the response, or the
    rejection of the promise. *)
Definition fetched (o : outcome) : M (World C) (N * option value) :=
  match o with
  | NetworkError => throw NetworkFailure
  | Response st body => ret (st, body)
  end.

(** [await response.json()] *)
Definition response_json (response : N * option value)
  : M (World C) value :=
  match snd response with
  | Some data => ret data
  | None => throw SyntaxError
  end.

(** The request at position [i] leaves the pending ones. *)
Definition take_inflight (i : nat) (w : World C) : World C :=
  {| comp := comp w;
     inflight := firstn i (inflight w) ++ skipn (S i) (inflight w);
     nowCalls := nowCalls w; dateCalls := dateCalls w |}.
End Effects.
Arguments with_comp {C} f w.
Arguments Date_now env {C}.
Arguments new_Date env {C}.
Arguments fetch {C} u m.
Arguments request_url {C} inputValue.
Arguments fetched {C} o.
Arguments response_json {C} response.
Arguments take_inflight {C} i w.

(* ================================================================== *)
(** ** [src/unnamed/part_000]: the controller with the [isLoading] flag *)
(* ================================================================== *)

Module Part0.

Record State : Type := {
  messages : list Message;
  inputValue : jsstring;
  isLoading : bool
}.

Definition W : Type := World State.

(** Line 172: the [disabled] attribute of the send button. *)
Definition sendDisabled (w : W) : bool :=
  is_empty (trim (inputValue (comp w))) || isLoading (comp w).

(** Lines 129 and 175: the "Thinking..." row and the spinner of the send
    button are rendered under [isLoading]. *)
Definition loadingIndicator (w : W) : bool := isLoading (comp w).

Section Controller.
Variable env : Env.

(** The three [useState] initial values at mount. *)
Definition initial : W :=
  {| comp := {| messages := [seed (date env 0)];
                inputValue := lit "";
                isLoading := false |};
     inflight := []; nowCalls := 0; dateCalls := 1 |}.

Definition setMessages (f : list Message -> list Message) : M W unit :=
  modify (with_comp (fun c =>
    {| messages := f (messages c); inputValue := inputValue c;
       isLoading := isLoading c |})).

Definition setInputValue (v : jsstring) : M W unit :=
  modify (with_comp (fun c =>
    {| messages := messages c; inputValue := v;
       isLoading := isLoading c |})).

Definition setIsLoading (b : bool) : M W unit :=
  modify (with_comp (fun c =>
    {| messages := messages c; inputValue := inputValue c;
       isLoading := b |})).

(** Lines 42-43: the [try] block up to its first [await]. *)
Definition handleSend_try (inputValue : jsstring) : M W unit :=
  u <- request_url inputValue;
  fetch u (lit "POST");;
  await_pending.

(** Lines 43-53: the [try] block from the settled [fetch] on.  The
    object literal reads [Date.now()], then [data.answer], then
    [new Date()]. *)
Definition handleSend_try_settled (o : outcome) : M W unit :=
  response <- fetched o;
  data <- response_json response;
  i <- Date_now env;
  answer <- lift_result (get_answer data);
  t <- new_Date env;
  let assistantResponse :=
    {| id := i; text := answer; sender := assistant; timestamp := t |} in
  setMessages (fun prev => prev ++ [assistantResponse]).

(** Lines 55-63: the [catch] block ([console.error] has no effect on
    the state). *)
Definition handleSend_catch (error : exn) : M W unit :=
  i <- Date_now env;
  t <- new_Date env;
  let errorResponse :=
    {| id := i; text := JStr apology; sender := assistant;
       timestamp := t |} in
  setMessages (fun prev => prev ++ [errorResponse]).

(** Lines 64-66. *)
Definition handleSend_finally : M W unit := setIsLoading false.

(** Lines 27-67, up to the first [await].  [inputValue] and [isLoading]
    are the constants of the render the handler belongs to, so the
    request is built from the draft as it was when the handler
    started. *)
Definition handleSend : M W unit :=
  w <- get;
  let inputValue := inputValue (comp w) in
  let isLoading := isLoading (comp w) in
  if is_empty (trim inputValue) || isLoading then ret tt
  else
    i <- Date_now env;
    t <- new_Date env;
    let newUserMessage :=
      {| id := i; text := JStr inputValue; sender := user;
         timestamp := t |} in
    setMessages (fun prev => prev ++ [newUserMessage]);;
    setInputValue (lit "");;
    setIsLoading true;;
    try_catch_finally (handleSend_try inputValue)
                      handleSend_catch handleSend_finally.

(** The same call of [handleSend], resumed when its request has ended. *)
Definition handleSend_settled (o : outcome) : M W unit :=
  try_catch_finally (handleSend_try_settled o)
                    handleSend_catch handleSend_finally.

(** Lines 69-74; the result tells whether [e.preventDefault()] ran. *)
Definition handleKeyPress (e : KeyEvent) : M W bool :=
  if jsstring_eqb (key e) (lit "Enter") && negb (shiftKey e) then
    spawn handleSend;; ret true
  else ret false.

(** One turn of the event loop.  React has committed the state before
    the next event is dispatched, so a handler reads the current
    cells. *)
Definition step (ev : event) (w : W) : W :=
  match ev with
  | Change v => snd (setInputValue v w)
  | KeyDown e => snd (handleKeyPress e w)
  | Click => snd (handleSend w)
  | Settle i o =>
      match nth_error (inflight w) i with
      | Some _ => snd (handleSend_settled o (take_inflight i w))
      | None => w
      end
  end.

Definition run (evs : list event) (w : W) : W :=
  fold_left (fun w ev => step ev w) evs w.

End Controller.
End Part0.

(* ================================================================== *)
(** ** [src/frontend/src/app/page.tsx]: the controller without the flag *)
(* ================================================================== *)

Module Page.

Record State : Type := {
  messages : list Message;
  inputValue : jsstring
}.

Definition W : Type := World State.

(** Line 121: the [disabled] attribute of the send button. *)
Definition sendDisabled (w : W) : bool :=
  is_empty (trim (inputValue (comp w))).

Section Controller.
Variable env : Env.

Definition initial : W :=
  {| comp := {| messages := [seed (date env 0)];
                inputValue := lit "" |};
     inflight := []; nowCalls := 0; dateCalls := 1 |}.

Definition setMessages (f : list Message -> list Message) : M W unit :=
  modify (with_comp (fun c =>
    {| messages := f (messages c); inputValue := inputValue c |})).

Definition setInputValue (v : jsstring) : M W unit :=
  modify (with_comp (fun c =>
    {| messages := messages c; inputValue := v |})).

(** Lines 40-41. *)
Definition handleSend_try (inputValue : jsstring) : M W unit :=
  u <- request_url inputValue;
  fetch u (lit "POST");;
  await_pending.

(** Lines 41-51. *)
Definition handleSend_try_settled (o : outcome) : M W unit :=
  response <- fetched o;
  data <- response_json response;
  i <- Date_now env;
  answer <- lift_result (get_answer data);
  t <- new_Date env;
  let assistantResponse :=
    {| id := i; text := answer; sender := assistant; timestamp := t |} in
  setMessages (fun prev => prev ++ [assistantResponse]).

(** Lines 53-62. *)
Definition handleSend_catch (error : exn) : M W unit :=
  i <- Date_now env;
  t <- new_Date env;
  let errorResponse :=
    {| id := i; text := JStr apology; sender := assistant;
       timestamp := t |} in
  setMessages (fun prev => prev ++ [errorResponse]).

(** Lines 26-63, up to the first [await]. *)
Definition handleSend : M W unit :=
  w <- get;
  let inputValue := inputValue (comp w) in
  if is_empty (trim inputValue) then ret tt
  else
    i <- Date_now env;
    t <- new_Date env;
    let newUserMessage :=
      {| id := i; text := JStr inputValue; sender := user;
         timestamp := t |} in
    setMessages (fun prev => prev ++ [newUserMessage]);;
    setInputValue (lit "");;
    try_catch (handleSend_try inputValue) handleSend_catch.

Definition handleSend_settled (o : outcome) : M W unit :=
  try_catch (handleSend_try_settled o) handleSend_catch.

(** Lines 65-70. *)
Definition handleKeyPress (e : KeyEvent) : M W bool :=
  if jsstring_eqb (key e) (lit "Enter") && negb (shiftKey e) then
    spawn handleSend;; ret true
  else ret false.

Definition step (ev : event) (w : W) : W :=
  match ev with
  | Change v => snd (setInputValue v w)
  | KeyDown e => snd (handleKeyPress e w)
  | Click => snd (handleSend w)
  | Settle i o =>
      match nth_error (inflight w) i with
      | Some _ => snd (handleSend_settled o (take_inflight i w))
      | None => w
      end
  end.

Definition run (evs : list event) (w : W) : W :=
  fold_left (fun w ev => step ev w) evs w.

End Controller.
End Page.

(* ================================================================== *)
(** ** Sample data for the scenarios                                   *)
(* ================================================================== *)

(** A clock that advances by one millisecond at every read. *)
Definition ticking : Env :=
  {| now := fun k => (1700000000000 + Z.of_nat k)%Z;
     date := fun k => (1700000000000 + Z.of_nat k)%Z |}.

(** A clock read twice within one millisecond. *)
Definition frozen (t : Z) : Env := {| now := fun _ => t; date := fun _ => t |}.

Definition Enter : KeyEvent := {| key := lit "Enter"; shiftKey := false |}.

Definition question : jsstring := lit "Who hit the most home runs in 2023?".

Definition answered (a : jsstring) : outcome :=
  Response 200 (Some (JObj [(lit "answer", JStr a)])).

(** A server error of the FastAPI kind: status 500, a JSON body without
    [answer]. *)
Definition server_error : outcome :=
  Response 500 (Some (JObj [(lit "detail", JStr (lit "Internal Server Error"))])).

(** What the transcript shows of a message. *)
Definition shown (m : Message) : value * Sender := (text m, sender m).

(* ================================================================== *)
(** ** Vocabulary of the statements                                    *)
(* ================================================================== *)

Definition user_message (i : Z) (s : jsstring) (t : Z) : Message :=
  {| id := i; text := JStr s; sender := user; timestamp := t |}.

Definition assistant_message (i : Z) (v : value) (t : Z) : Message :=
  {| id := i; text := v; sender := assistant; timestamp := t |}.

Definition post (u : jsstring) : Request :=
  {| url := u; method := lit "POST" |}.

(** A turn is admitted when the gate of [handleSend] lets it through. *)
Definition part0_accepts (w : Part0.W) : bool :=
  negb (is_empty (trim (Part0.inputValue (comp w)))
        || Part0.isLoading (comp w)).

Definition page_accepts (w : Page.W) : bool :=
  negb (is_empty (trim (Page.inputValue (comp w)))).

(** An outcome after which the [try] block throws: the [fetch] is
    rejected, the body is not JSON, or the body is [null], on which the
    read of [.answer] throws. *)
Definition fails (o : outcome) : bool :=
  match o with
  | NetworkError => true
  | Response _ None => true
  | Response _ (Some JNull) => true
  | Response _ (Some JUndefined) => true
  | Response _ (Some _) => false
  end.

(** The number of [Date.now()] reads of the [try] block before it
    throws: the read of the object literal precedes [data.answer]. *)
Definition reads_before_throw (o : outcome) : nat :=
  match o with
  | Response _ (Some _) => 1
  | _ => 0
  end.

(** Status codes 200-299. *)
Definition success (status : N) : bool := in_range 200 299 status.

(** The body is a JSON object with a string field [answer]. *)
Definition has_string_answer (body : option value) : bool :=
  match body with
  | Some (JObj props) =>
      match lookup (lit "answer") props with
      | Some (JStr _) => true
      | _ => false
      end
  | _ => false
  end.

(** The ids of a log are drawn from the seed id and from the first [n]
    reads of [Date.now()], and no two of them are equal. *)
Definition ids_fresh (env : Env) (ms : list Message) (n : nat) : Prop :=
  NoDup (map id ms)
  /\ Forall (fun m => id m = 1%Z \/ exists k, (k < n)%nat /\ id m = now env k)
            ms.

(** [page.tsx] keeps no flag; there a turn is pending while a request of
    the session has not ended. *)
Definition page_pending (w : Page.W) : bool :=
  match inflight w with [] => false | _ :: _ => true end.

(** An event that calls [handleSend]. *)
Definition submits (ev : event) : bool :=
  match ev with
  | Click => true
  | KeyDown e => jsstring_eqb (key e) (lit "Enter") && negb (shiftKey e)
  | _ => false
  end.

(** A submission of a non-blank draft while a turn is pending. *)
Definition overlapping (ev : event) (w : Part0.W) : bool :=
  submits ev && Part0.isLoading (comp w)
  && negb (is_empty (trim (Part0.inputValue (comp w)))).

(** No event of the sequence is an overlapping submission. *)
Fixpoint single_flight (env : Env) (evs : list event) (w : Part0.W) : bool :=
  match evs with
  | [] => true
  | ev :: evs' =>
      negb (overlapping ev w) && single_flight env evs' (Part0.step env ev w)
  end.

(** The two variants are in step: same log, draft, pending requests and
    clock reads, and the flag of [part_000] is up exactly while a request
    is pending. *)
Definition same_session (p : Page.W) (q : Part0.W) : Prop :=
  Page.messages (comp p) = Part0.messages (comp q)
  /\ Page.inputValue (comp p) = Part0.inputValue (comp q)
  /\ inflight p = inflight q
  /\ nowCalls p = nowCalls q
  /\ dateCalls p = dateCalls q
  /\ Part0.isLoading (comp q) = page_pending p
  /\ (List.length (inflight q) <= 1)%nat.

(** The senders of [n] completed turns: a question, then its reply. *)
Fixpoint turns (n : nat) : list Sender :=
  match n with
  | O => []
  | S n' => user :: assistant :: turns n'
  end.

(** The log of [part_000] is the greeting, completed turns, and the
    question of the pending turn while the flag is up. *)
Definition turn_shaped (w : Part0.W) : Prop :=
  exists n,
    map sender (Part0.messages (comp w))
    = assistant :: turns n
      ++ (if Part0.isLoading (comp w) then [user] else []).

(** At most one request is pending, and the flag tells whether one is. *)
Definition single_request (w : Part0.W) : Prop :=
  (List.length (inflight w) <= 1)%nat
  /\ (Part0.isLoading (comp w) = true <-> inflight w <> []).

Definition is_settle (ev : event) : bool :=
  match ev with Settle _ _ => true | _ => false end.

(** A 16-bit code unit outside the surrogate range. *)
Definition scalar_unit (c : N) : bool :=
  (c <? 65536)%N && negb (isLeadingSurrogate c)
  && negb (isTrailingSurrogate c).

(** A character that stands for itself or opens an escape in a query
    string: unreserved, or the percent sign. *)
Definition query_safe (c : N) : bool := uriUnreserved c || (c =? 37)%N.

(** The code point of a surrogate pair. *)
Definition pair_code_point (c d : N) : N :=
  ((c - 55296) * 1024 + (d - 56320) + 65536)%N.

(** The first character of a string that [encodeURIComponent] accepts:
    an unreserved code unit [c] kept as it is, or the escape of the code
    point [cp] read from one code unit or from a surrogate pair; [rest']
    is what follows the character. *)
Inductive first_char (c : N) (rest : jsstring)
  : option N -> jsstring -> Prop :=
| first_unreserved :
    uriUnreserved c = true -> first_char c rest None rest
| first_unit :
    uriUnreserved c = false -> isLeadingSurrogate c = false ->
    isTrailingSurrogate c = false -> first_char c rest (Some c) rest
| first_pair d rest' :
    uriUnreserved c = false -> isLeadingSurrogate c = true ->
    isTrailingSurrogate d = true -> rest = d :: rest' ->
    first_char c rest (Some (pair_code_point c d)) rest'.

(** [n] submissions of the draft [s], none of them awaited. *)
Fixpoint submissions (s : jsstring) (n : nat) : list event :=
  match n with
  | O => []
  | S n' => Change s :: Click :: submissions s n'
  end.

(* ================================================================== *)
(** ** Proof support                                                   *)
(* ================================================================== *)

Unset Implicit Arguments.

Ltac handlers :=
  unfold Part0.handleSend, Part0.handleSend_settled, Part0.handleSend_try,
    Part0.handleSend_try_settled, Part0.handleSend_catch,
    Part0.handleSend_finally, Part0.handleKeyPress, Part0.setMessages,
    Part0.setInputValue, Part0.setIsLoading,
    Page.handleSend, Page.handleSend_settled, Page.handleSend_try,
    Page.handleSend_try_settled, Page.handleSend_catch,
    Page.handleKeyPress, Page.setMessages, Page.setInputValue,
    try_catch_finally, try_catch, spawn, request_url, fetched,
    response_json, fetch, Date_now, new_Date, lift_result, await_pending,
    bind, ret, throw, get, modify, with_comp in *.

(** *** The built-ins on known values *)

Example trim_blanks : trim (lit "   ") = lit "".
Proof. reflexivity. Qed.

Example trim_keeps_inner_blanks :
  trim ([9; 10; 160] ++ lit " a b " ++ [8232; 65279; 13])%N = lit "a b".
Proof. reflexivity. Qed.

Example encode_reserved : encodeURIComponent (lit "a b&c=d/e?") =
                          Some (lit "a%20b%26c%3Dd%2Fe%3F").
Proof. reflexivity. Qed.

Example encode_unreserved : encodeURIComponent (lit "Az09-_.!~*'()") =
                            Some (lit "Az09-_.!~*'()").
Proof. reflexivity. Qed.

(** U+00E9, U+20AC and U+1F600 (a surrogate pair). *)
Example encode_utf8 :
  encodeURIComponent [233; 8364; 55357; 56832]%N =
  Some (lit "%C3%A9%E2%82%AC%F0%9F%98%80").
Proof. reflexivity. Qed.

Example encode_unpaired_surrogate :
  encodeURIComponent [55357]%N = None
  /\ encodeURIComponent [56832]%N = None
  /\ encodeURIComponent [55357; 97]%N = None.
Proof. repeat split. Qed.

Example answer_of_values :
  get_answer JNull = inl TypeError
  /\ get_answer (JStr (lit "answer")) = inr JUndefined
  /\ get_answer (JObj [(lit "detail", JNull)]) = inr JUndefined
  /\ get_answer (JObj [(lit "answer", JNum (lit "42"))])
     = inr (JNum (lit "42")).
Proof. repeat split. Qed.

(** *** The gate of [handleSend] *)

Lemma part0_gate_closed env (w : Part0.W) :
  is_empty (trim (Part0.inputValue (comp w))) || Part0.isLoading (comp w)
    = true ->
  Part0.handleSend env w = (Normal tt, w).
Proof. intros G. handlers. simpl. rewrite G. reflexivity. Qed.

Lemma page_gate_closed env (w : Page.W) :
  is_empty (trim (Page.inputValue (comp w))) = true ->
  Page.handleSend env w = (Normal tt, w).
Proof. intros G. handlers. simpl. rewrite G. reflexivity. Qed.

Lemma part0_keypress_gate_closed env e (w : Part0.W) :
  is_empty (trim (Part0.inputValue (comp w))) || Part0.isLoading (comp w)
    = true ->
  snd (Part0.handleKeyPress env e w) = w.
Proof.
  intros G. unfold Part0.handleKeyPress.
  destruct (jsstring_eqb (key e) (lit "Enter") && negb (shiftKey e));
    [| reflexivity].
  unfold bind, spawn, ret. rewrite (part0_gate_closed env w G). reflexivity.
Qed.

Lemma page_keypress_gate_closed env e (w : Page.W) :
  is_empty (trim (Page.inputValue (comp w))) = true ->
  snd (Page.handleKeyPress env e w) = w.
Proof.
  intros G. unfold Page.handleKeyPress.
  destruct (jsstring_eqb (key e) (lit "Enter") && negb (shiftKey e));
    [| reflexivity].
  unfold bind, spawn, ret. rewrite (page_gate_closed env w G). reflexivity.
Qed.

(* ================================================================== *)
(** ** Admission control                                               *)
(* ================================================================== *)

(** C1 (as amended): in [part_000], in every state whose [isLoading]
    flag is set, [handleSend] returns at its gate: the world (log, draft,
    flag, pending requests, clock reads) is unchanged and the call
    completes normally, whether it comes from the button or from the
    Enter key and whatever the draft is. *)
Theorem part0_handleSend_noop_while_loading env (w : Part0.W) :
  Part0.isLoading (comp w) = true ->
  Part0.handleSend env w = (Normal tt, w)
  /\ Part0.step env Click w = w
  /\ forall e, Part0.step env (KeyDown e) w = w.
Proof.
  intros L.
  assert (G : is_empty (trim (Part0.inputValue (comp w)))
              || Part0.isLoading (comp w) = true)
    by (rewrite L; apply orb_true_r).
  split; [exact (part0_gate_closed env w G) |].
  split.
  - simpl. rewrite (part0_gate_closed env w G). reflexivity.
  - intros e. simpl. exact (part0_keypress_gate_closed env e w G).
Qed.

Lemma part0_handleSend_noop_while_loading_witness :
  let w := Part0.run ticking [Change question; Click; Change question]
                     (Part0.initial ticking) in
  Part0.isLoading (comp w) = true
  /\ Part0.handleSend ticking w = (Normal tt, w)
  /\ Part0.step ticking Click w = w.
Proof.
  intros w.
  pose proof (part0_handleSend_noop_while_loading ticking w eq_refl)
    as [H1 [H2 _]].
  exact (conj eq_refl (conj H1 H2)).
Defined.

(** C1 (as stated) fails on [page.tsx]: with a request pending and a
    non-blank draft, [handleSend] changes the world. *)
Lemma page_handleSend_runs_while_pending :
  ~ (forall env (w : Page.W),
        page_pending w = true -> snd (Page.handleSend env w) = w).
Proof.
  intros H.
  specialize (H ticking
                (Page.run ticking [Change question; Click; Change question]
                          (Page.initial ticking)) eq_refl).
  apply (f_equal (fun w => List.length (inflight w))) in H.
  vm_compute in H. discriminate H.
Qed.

(** C6: when the draft is empty after [trim], [handleSend] is a no-op in
    both variants: it completes normally and leaves the log, the draft,
    the flag, the pending requests and the clock reads as they were; so do
    a click and a key press.  The drafts [""] and ["   "] are such. *)
Theorem blank_draft_is_noop env (s : jsstring) :
  trim s = [] ->
  (forall q : Part0.W, Part0.inputValue (comp q) = s ->
     Part0.handleSend env q = (Normal tt, q)
     /\ Part0.step env Click q = q
     /\ forall e, Part0.step env (KeyDown e) q = q)
  /\ (forall p : Page.W, Page.inputValue (comp p) = s ->
     Page.handleSend env p = (Normal tt, p)
     /\ Page.step env Click p = p
     /\ forall e, Page.step env (KeyDown e) p = p).
Proof.
  intros B. split.
  - intros q E.
    assert (G : is_empty (trim (Part0.inputValue (comp q)))
                || Part0.isLoading (comp q) = true)
      by (rewrite E, B; reflexivity).
    split; [exact (part0_gate_closed env q G) |].
    split.
    + simpl. rewrite (part0_gate_closed env q G). reflexivity.
    + intros e. simpl. exact (part0_keypress_gate_closed env e q G).
  - intros p E.
    assert (G : is_empty (trim (Page.inputValue (comp p))) = true)
      by (rewrite E, B; reflexivity).
    split; [exact (page_gate_closed env p G) |].
    split.
    + simpl. rewrite (page_gate_closed env p G). reflexivity.
    + intros e. simpl. exact (page_keypress_gate_closed env e p G).
Qed.

Lemma blank_draft_is_noop_witness :
  let q0 := Part0.initial ticking in
  let q3 := Part0.step ticking (Change (lit "   ")) (Part0.initial ticking) in
  let p3 := Page.step ticking (Change (lit "   ")) (Page.initial ticking) in
  trim (lit "") = [] /\ trim (lit "   ") = []
  /\ Part0.handleSend ticking q0 = (Normal tt, q0)
  /\ Part0.handleSend ticking q3 = (Normal tt, q3)
  /\ Page.handleSend ticking p3 = (Normal tt, p3).
Proof.
  intros q0 q3 p3.
  pose proof (blank_draft_is_noop ticking (lit "") eq_refl) as [A0 _].
  pose proof (blank_draft_is_noop ticking (lit "   ") eq_refl)
    as [A3 B3].
  exact (conj eq_refl (conj eq_refl
          (conj (proj1 (A0 q0 eq_refl))
            (conj (proj1 (A3 q3 eq_refl)) (proj1 (B3 p3 eq_refl)))))).
Defined.

(* ================================================================== *)
(** ** The outcome of a request                                        *)
(* ================================================================== *)

Lemma fails_spec (o : outcome) :
  fails o = false <->
  exists st d v, o = Response st (Some d) /\ get_answer d = inr v.
Proof.
  split.
  - destruct o as [| st [d |]]; try discriminate.
    destruct d as [| | b | n | s | items | props]; try discriminate;
      intros _; exists st;
      try (eexists; exists JUndefined; split; reflexivity).
    exists (JObj props). unfold get_answer.
    destruct (lookup (lit "answer") props) as [v |];
      eexists; split; reflexivity.
  - intros (st & d & v & -> & A). destruct d; try discriminate; reflexivity.
Qed.

(** The resumed call when the [try] block runs to its end. *)
Lemma part0_settled_answer env st d v (q : Part0.W) :
  get_answer d = inr v ->
  Part0.handleSend_settled env (Response st (Some d)) q =
  (Normal tt,
   {| comp := {| Part0.messages :=
                   Part0.messages (comp q) ++
                   [{| id := now env (nowCalls q); text := v;
                       sender := assistant;
                       timestamp := date env (dateCalls q) |}];
                 Part0.inputValue := Part0.inputValue (comp q);
                 Part0.isLoading := false |};
      inflight := inflight q;
      nowCalls := S (nowCalls q);
      dateCalls := S (dateCalls q) |}).
Proof. intros A. handlers. simpl. rewrite A. reflexivity. Qed.

Lemma page_settled_answer env st d v (p : Page.W) :
  get_answer d = inr v ->
  Page.handleSend_settled env (Response st (Some d)) p =
  (Normal tt,
   {| comp := {| Page.messages :=
                   Page.messages (comp p) ++
                   [{| id := now env (nowCalls p); text := v;
                       sender := assistant;
                       timestamp := date env (dateCalls p) |}];
                 Page.inputValue := Page.inputValue (comp p) |};
      inflight := inflight p;
      nowCalls := S (nowCalls p);
      dateCalls := S (dateCalls p) |}).
Proof. intros A. handlers. simpl. rewrite A. reflexivity. Qed.

(** The resumed call when the [try] block throws. *)
Lemma part0_settled_failure env o (q : Part0.W) :
  fails o = true ->
  Part0.handleSend_settled env o q =
  (Normal tt,
   {| comp := {| Part0.messages :=
                   Part0.messages (comp q) ++
                   [{| id := now env (reads_before_throw o + nowCalls q);
                       text := JStr apology;
                       sender := assistant;
                       timestamp := date env (dateCalls q) |}];
                 Part0.inputValue := Part0.inputValue (comp q);
                 Part0.isLoading := false |};
      inflight := inflight q;
      nowCalls := S (reads_before_throw o + nowCalls q);
      dateCalls := S (dateCalls q) |}).
Proof.
  intros F. destruct o as [| st [d |]]; [reflexivity | | reflexivity].
  destruct d; try discriminate F; reflexivity.
Qed.

Lemma page_settled_failure env o (p : Page.W) :
  fails o = true ->
  Page.handleSend_settled env o p =
  (Normal tt,
   {| comp := {| Page.messages :=
                   Page.messages (comp p) ++
                   [{| id := now env (reads_before_throw o + nowCalls p);
                       text := JStr apology;
                       sender := assistant;
                       timestamp := date env (dateCalls p) |}];
                 Page.inputValue := Page.inputValue (comp p) |};
      inflight := inflight p;
      nowCalls := S (reads_before_throw o + nowCalls p);
      dateCalls := S (dateCalls p) |}).
Proof.
  intros F. destruct o as [| st [d |]]; [reflexivity | | reflexivity].
  destruct d; try discriminate F; reflexivity.
Qed.

(* ================================================================== *)
(** ** An admitted call of [handleSend]                                *)
(* ================================================================== *)

Lemma part0_accepts_gate (q : Part0.W) :
  part0_accepts q = true ->
  is_empty (trim (Part0.inputValue (comp q))) || Part0.isLoading (comp q)
    = false.
Proof. unfold part0_accepts. apply negb_true_iff. Qed.

Lemma page_accepts_gate (p : Page.W) :
  page_accepts p = true ->
  is_empty (trim (Page.inputValue (comp p))) = false.
Proof. unfold page_accepts. apply negb_true_iff. Qed.

(** The draft encodes: the call stops at [await fetch(...)]. *)
Lemma part0_handleSend_sent env (q : Part0.W) (e : jsstring) :
  part0_accepts q = true ->
  encodeURIComponent (Part0.inputValue (comp q)) = Some e ->
  Part0.handleSend env q =
  (Suspended,
   {| comp := {| Part0.messages :=
                   Part0.messages (comp q) ++
                   [{| id := now env (nowCalls q);
                       text := JStr (Part0.inputValue (comp q));
                       sender := user;
                       timestamp := date env (dateCalls q) |}];
                 Part0.inputValue := lit "";
                 Part0.isLoading := true |};
      inflight := inflight q ++
                  [{| url := endpoint ++ e; method := lit "POST" |}];
      nowCalls := S (nowCalls q);
      dateCalls := S (dateCalls q) |}).
Proof.
  intros A E. apply part0_accepts_gate in A.
  handlers. simpl. rewrite A, E. reflexivity.
Qed.

Lemma page_handleSend_sent env (p : Page.W) (e : jsstring) :
  page_accepts p = true ->
  encodeURIComponent (Page.inputValue (comp p)) = Some e ->
  Page.handleSend env p =
  (Suspended,
   {| comp := {| Page.messages :=
                   Page.messages (comp p) ++
                   [{| id := now env (nowCalls p);
                       text := JStr (Page.inputValue (comp p));
                       sender := user;
                       timestamp := date env (dateCalls p) |}];
                 Page.inputValue := lit "" |};
      inflight := inflight p ++
                  [{| url := endpoint ++ e; method := lit "POST" |}];
      nowCalls := S (nowCalls p);
      dateCalls := S (dateCalls p) |}).
Proof.
  intros A E. apply page_accepts_gate in A.
  handlers. simpl. rewrite A, E. reflexivity.
Qed.

(** The draft holds an unpaired surrogate: [encodeURIComponent] throws
    inside the [try] block, no request leaves, and the [catch] block runs
    in the same call. *)
Lemma part0_handleSend_uri_error env (q : Part0.W) :
  part0_accepts q = true ->
  encodeURIComponent (Part0.inputValue (comp q)) = None ->
  Part0.handleSend env q =
  (Normal tt,
   {| comp := {| Part0.messages :=
                   (Part0.messages (comp q) ++
                    [{| id := now env (nowCalls q);
                        text := JStr (Part0.inputValue (comp q));
                        sender := user;
                        timestamp := date env (dateCalls q) |}]) ++
                   [{| id := now env (S (nowCalls q));
                       text := JStr apology;
                       sender := assistant;
                       timestamp := date env (S (dateCalls q)) |}];
                 Part0.inputValue := lit "";
                 Part0.isLoading := false |};
      inflight := inflight q;
      nowCalls := S (S (nowCalls q));
      dateCalls := S (S (dateCalls q)) |}).
Proof.
  intros A E. apply part0_accepts_gate in A.
  handlers. simpl. rewrite A, E. reflexivity.
Qed.

Lemma page_handleSend_uri_error env (p : Page.W) :
  page_accepts p = true ->
  encodeURIComponent (Page.inputValue (comp p)) = None ->
  Page.handleSend env p =
  (Normal tt,
   {| comp := {| Page.messages :=
                   (Page.messages (comp p) ++
                    [{| id := now env (nowCalls p);
                        text := JStr (Page.inputValue (comp p));
                        sender := user;
                        timestamp := date env (dateCalls p) |}]) ++
                   [{| id := now env (S (nowCalls p));
                       text := JStr apology;
                       sender := assistant;
                       timestamp := date env (S (dateCalls p)) |}];
                 Page.inputValue := lit "" |};
      inflight := inflight p;
      nowCalls := S (S (nowCalls p));
      dateCalls := S (S (dateCalls p)) |}).
Proof.
  intros A E. apply page_accepts_gate in A.
  handlers. simpl. rewrite A, E. reflexivity.
Qed.

(* ================================================================== *)
(** ** Replies                                                         *)
(* ================================================================== *)

(** C3 (as stated) fails: a response with status 500 and a JSON body
    without [answer] is not answered by the apology. *)
Lemma server_error_is_not_apologised :
  ~ (forall env (q : Part0.W) st body,
        success st = false \/ has_string_answer body = false ->
        exists i t,
          Part0.messages
            (comp (snd (Part0.handleSend_settled env (Response st body) q)))
          = Part0.messages (comp q)
            ++ [assistant_message i (JStr apology) t]).
Proof.
  intros H.
  destruct (H ticking (Part0.initial ticking) 500%N
              (Some (JObj [(lit "detail", JStr (lit "Internal Server Error"))]))
              (or_introl eq_refl)) as (i & t & E).
  vm_compute in E. discriminate E.
Qed.

(** C3 (as amended): the status code is never read, and the turn is a
    failure only when the [try] block throws (rejected [fetch], body that
    is not JSON, body [null]).  For every other response, whatever its
    status, both variants append one assistant message whose text is the
    value of [data.answer]: [undefined] when the body has no such field,
    and the field's value, string or not, when it has. *)
Theorem reply_text_is_answer_field env o :
  (fails o = true ->
     (forall q : Part0.W,
        Part0.messages (comp (snd (Part0.handleSend_settled env o q)))
        = Part0.messages (comp q)
          ++ [assistant_message (now env (reads_before_throw o + nowCalls q))
                                (JStr apology) (date env (dateCalls q))])
     /\ (forall p : Page.W,
        Page.messages (comp (snd (Page.handleSend_settled env o p)))
        = Page.messages (comp p)
          ++ [assistant_message (now env (reads_before_throw o + nowCalls p))
                                (JStr apology) (date env (dateCalls p))]))
  /\ (forall st d v,
        o = Response st (Some d) -> get_answer d = inr v ->
        (forall q : Part0.W,
           Part0.messages (comp (snd (Part0.handleSend_settled env o q)))
           = Part0.messages (comp q)
             ++ [assistant_message (now env (nowCalls q)) v
                                   (date env (dateCalls q))])
        /\ (forall p : Page.W,
           Page.messages (comp (snd (Page.handleSend_settled env o p)))
           = Page.messages (comp p)
             ++ [assistant_message (now env (nowCalls p)) v
                                   (date env (dateCalls p))])).
Proof.
  split.
  - intros F. split.
    + intros q. rewrite (part0_settled_failure env o q F). reflexivity.
    + intros p. rewrite (page_settled_failure env o p F). reflexivity.
  - intros st d v -> A. split.
    + intros q. rewrite (part0_settled_answer env st d v q A). reflexivity.
    + intros p. rewrite (page_settled_answer env st d v p A). reflexivity.
Qed.

Lemma reply_text_is_answer_field_witness :
  let q := Part0.run ticking [Change question; Click] (Part0.initial ticking) in
  (fails NetworkError = true /\ get_answer (JObj [(lit "detail", JStr (lit "Internal Server Error"))]) = inr JUndefined)
  /\ map shown (Part0.messages
       (comp (snd (Part0.handleSend_settled ticking NetworkError q))))
     = map shown (Part0.messages (comp q)) ++ [(JStr apology, assistant)]
  /\ map shown (Part0.messages
       (comp (snd (Part0.handleSend_settled ticking server_error q))))
     = map shown (Part0.messages (comp q)) ++ [(JUndefined, assistant)].
Proof.
  intros q.
  pose proof (proj1 (proj1 (reply_text_is_answer_field ticking NetworkError)
                      eq_refl) q) as E1.
  pose proof (proj1 (proj2 (reply_text_is_answer_field ticking server_error)
                      500%N _ JUndefined eq_refl eq_refl) q) as E2.
  split; [split; reflexivity |].
  split.
  - rewrite E1, map_app. reflexivity.
  - rewrite E2, map_app. reflexivity.
Defined.

(** C4: from the seed state, the draft ["Who hit the most home runs in
    2023?"], one submission and the response [{answer: "Shohei Ohtani"}]
    give a log of exactly three messages: the seed greeting, the user
    message with the submitted text, the assistant message with the
    answer; the flag ends [false].  A draft with blanks around it is
    logged as typed. *)
Theorem home_run_scenario env :
  let reply := answered (lit "Shohei Ohtani") in
  let w := Part0.run env [Change question; Click; Settle 0 reply]
                     (Part0.initial env) in
  let padded := lit "  Who hit the most home runs in 2023? " in
  let w' := Part0.run env [Change padded; Click; Settle 0 reply]
                      (Part0.initial env) in
  List.length (Part0.messages (comp (Part0.initial env))) = 1%nat
  /\ Part0.messages (comp w)
     = [seed (date env 0);
        user_message (now env 0) question (date env 1);
        assistant_message (now env 1) (JStr (lit "Shohei Ohtani"))
                          (date env 2)]
  /\ Part0.isLoading (comp w) = false
  /\ inflight w = []
  /\ Part0.messages (comp w')
     = [seed (date env 0);
        user_message (now env 0) padded (date env 1);
        assistant_message (now env 1) (JStr (lit "Shohei Ohtani"))
                          (date env 2)]
  /\ Page.messages
       (comp (Page.run env [Change question; Click; Settle 0 reply]
                       (Page.initial env)))
     = Part0.messages (comp w).
Proof. intros reply w padded w'. repeat split; vm_compute; reflexivity. Qed.

(** C5: when the request of a turn fails ([fetch] rejected, body not
    JSON, or an exception while the reply is built), the resumed call
    appends exactly one assistant message whose text is the fixed apology,
    completes normally (nothing is thrown to the caller) and, in
    [part_000], leaves [isLoading] false; the reset of the flag and the
    normal completion hold for every outcome, failed or not. *)
Theorem failed_turn_gets_apology env o :
  fails o = true ->
  (forall q : Part0.W,
     let r := Part0.handleSend_settled env o q in
     fst r = Normal tt
     /\ Part0.messages (comp (snd r))
        = Part0.messages (comp q)
          ++ [assistant_message (now env (reads_before_throw o + nowCalls q))
                (JStr apology) (date env (dateCalls q))]
     /\ Part0.isLoading (comp (snd r)) = false)
  /\ (forall p : Page.W,
     let r := Page.handleSend_settled env o p in
     fst r = Normal tt
     /\ Page.messages (comp (snd r))
        = Page.messages (comp p)
          ++ [assistant_message (now env (reads_before_throw o + nowCalls p))
                (JStr apology) (date env (dateCalls p))])
  /\ (forall o' (q : Part0.W),
     fst (Part0.handleSend_settled env o' q) = Normal tt
     /\ Part0.isLoading (comp (snd (Part0.handleSend_settled env o' q)))
        = false)
  /\ (forall q : Part0.W,
     part0_accepts q = true ->
     encodeURIComponent (Part0.inputValue (comp q)) = None ->
     let r := Part0.handleSend env q in
     fst r = Normal tt
     /\ Part0.messages (comp (snd r))
        = Part0.messages (comp q)
          ++ [user_message (now env (nowCalls q))
                (Part0.inputValue (comp q)) (date env (dateCalls q));
              assistant_message (now env (S (nowCalls q))) (JStr apology)
                (date env (S (dateCalls q)))]
     /\ Part0.isLoading (comp (snd r)) = false
     /\ inflight (snd r) = inflight q).
Proof.
  intros F. split; [| split; [| split]]; cycle 3.
  - intros q A E r. subst r. rewrite (part0_handleSend_uri_error env q A E).
    simpl. rewrite <- app_assoc. repeat split.
  - intros q r. subst r. rewrite (part0_settled_failure env o q F).
    repeat split.
  - intros p r. subst r. rewrite (page_settled_failure env o p F).
    repeat split.
  - intros o' q. destruct (fails o') eqn:F'.
    + rewrite (part0_settled_failure env o' q F'). split; reflexivity.
    + apply fails_spec in F'. destruct F' as (st & d & v & -> & A).
      rewrite (part0_settled_answer env st d v q A). split; reflexivity.
Qed.

Lemma failed_turn_gets_apology_witness :
  let q := Part0.run ticking [Change question; Click] (Part0.initial ticking) in
  let lone := Part0.step ticking (Change [55357%N]) (Part0.initial ticking) in
  fails (Response 502 None) = true
  /\ fst (Part0.handleSend_settled ticking (Response 502 None)
                                  (take_inflight 0 q)) = Normal tt
  /\ map shown (Part0.messages
       (comp (Part0.step ticking (Settle 0 (Response 502 None)) q)))
     = [(JStr greeting, assistant); (JStr question, user);
        (JStr apology, assistant)]
  /\ Part0.isLoading
       (comp (Part0.step ticking (Settle 0 (Response 502 None)) q)) = false
  /\ map shown (Part0.messages (comp (Part0.step ticking Click lone)))
     = [(JStr greeting, assistant); (JStr [55357%N], user);
        (JStr apology, assistant)].
Proof.
  intros q lone.
  pose proof (failed_turn_gets_apology ticking (Response 502 None) eq_refl)
    as (A & _ & _ & U).
  destruct (A (take_inflight 0 q)) as (A1 & A2 & A3).
  destruct (U lone eq_refl eq_refl) as (_ & U2 & _).
  change (Part0.step ticking (Settle 0 (Response 502 None)) q)
    with (snd (Part0.handleSend_settled ticking (Response 502 None)
                                        (take_inflight 0 q))).
  change (Part0.step ticking Click lone)
    with (snd (Part0.handleSend ticking lone)).
  split; [reflexivity |].
  split; [exact A1 |].
  split; [rewrite A2; reflexivity |].
  split; [exact A3 |].
  rewrite U2. reflexivity.
Defined.

(* ================================================================== *)
(** ** The outgoing request                                            *)
(* ================================================================== *)

Lemma utf8_not_nil (cp : N) : utf8 cp <> [].
Proof.
  unfold utf8.
  destruct (cp <? 128)%N; [discriminate |].
  destruct (cp <? 2048)%N; [discriminate |].
  destruct (cp <? 65536)%N; discriminate.
Qed.

Lemma escape_not_nil (cp : N) : escape cp <> [].
Proof.
  unfold escape. pose proof (utf8_not_nil cp) as U.
  destruct (utf8 cp) as [| b bs]; [contradiction | discriminate].
Qed.

Lemma option_map_app_nil (pre : jsstring) (r : option jsstring) :
  pre <> [] -> option_map (app pre) r <> Some [].
Proof.
  intros P. destruct r as [l |]; simpl; [| discriminate].
  intros E. injection E as E. apply app_eq_nil in E. tauto.
Qed.

(** Only the empty string encodes to the empty query. *)
Lemma encodeURIComponent_nil (s : jsstring) :
  encodeURIComponent s = Some [] -> s = [].
Proof.
  destruct s as [| c rest]; [reflexivity |]. simpl.
  destruct (uriUnreserved c).
  - destruct (encodeURIComponent rest); discriminate.
  - destruct (isTrailingSurrogate c); [discriminate |].
    destruct (isLeadingSurrogate c).
    + destruct rest as [| d rest']; [discriminate |].
      destruct (isTrailingSurrogate d); [| discriminate].
      intros E. exfalso. revert E.
      apply option_map_app_nil, escape_not_nil.
    + intros E. exfalso. revert E.
      apply option_map_app_nil, escape_not_nil.
Qed.

(** C7 (as stated) fails: the draft [" hi "] is sent as [%20hi%20], not
    as the encoding [hi] of the trimmed text. *)
Lemma request_is_not_trimmed :
  ~ (forall env (q : Part0.W) e,
        part0_accepts q = true ->
        encodeURIComponent (trim (Part0.inputValue (comp q))) = Some e ->
        inflight (snd (Part0.handleSend env q))
        = inflight q ++ [post (endpoint ++ e)]).
Proof.
  intros H.
  specialize (H ticking
                (Part0.step ticking (Change (lit " hi "))
                            (Part0.initial ticking))
                (lit "hi") eq_refl eq_refl).
  vm_compute in H. discriminate H.
Qed.

(** C7 (as amended): for every admitted turn whose draft encodes, the
    one request issued is a POST to
    [http://localhost:8000/chat?question=] followed by
    [encodeURIComponent] of the draft as typed; [trim] is applied in the
    gate only, never to what is sent. *)
Theorem request_carries_untrimmed_draft env (s e : jsstring) :
  encodeURIComponent s = Some e ->
  (forall q : Part0.W,
     part0_accepts q = true -> Part0.inputValue (comp q) = s ->
     inflight (snd (Part0.handleSend env q))
     = inflight q ++ [post (lit "http://localhost:8000/chat?question=" ++ e)])
  /\ (forall p : Page.W,
     page_accepts p = true -> Page.inputValue (comp p) = s ->
     inflight (snd (Page.handleSend env p))
     = inflight p ++ [post (lit "http://localhost:8000/chat?question=" ++ e)]).
Proof.
  intros E. split.
  - intros q A I. rewrite <- I in E.
    rewrite (part0_handleSend_sent env q e A E). reflexivity.
  - intros p A I. rewrite <- I in E.
    rewrite (page_handleSend_sent env p e A E). reflexivity.
Qed.

Lemma request_carries_untrimmed_draft_witness :
  let q := Part0.step ticking (Change (lit " hi ")) (Part0.initial ticking) in
  let p := Page.step ticking (Change (lit " hi ")) (Page.initial ticking) in
  encodeURIComponent (lit " hi ") = Some (lit "%20hi%20")
  /\ inflight (snd (Part0.handleSend ticking q))
     = [post (lit "http://localhost:8000/chat?question=%20hi%20")]
  /\ inflight (snd (Page.handleSend ticking p))
     = [post (lit "http://localhost:8000/chat?question=%20hi%20")].
Proof.
  intros q p.
  pose proof (request_carries_untrimmed_draft ticking (lit " hi ")
                (lit "%20hi%20") eq_refl) as [A B].
  exact (conj eq_refl (conj (A q eq_refl eq_refl) (B p eq_refl eq_refl))).
Defined.

(** C10: an admitted call of [handleSend] builds its request from the
    draft it found when it started: afterwards the draft cell is empty,
    and the one request issued carries the encoding of the captured
    draft, which is not the (empty) encoding of the cleared cell.  When
    the captured draft cannot be encoded no request leaves at all. *)
Theorem request_uses_captured_draft env (s : jsstring) :
  trim s <> [] ->
  (forall q : Part0.W,
     Part0.isLoading (comp q) = false -> Part0.inputValue (comp q) = s ->
     let q' := snd (Part0.handleSend env q) in
     Part0.inputValue (comp q') = lit ""
     /\ match encodeURIComponent s with
        | Some e =>
            inflight q' = inflight q ++ [post (endpoint ++ e)]
            /\ e <> []
            /\ encodeURIComponent (Part0.inputValue (comp q')) <> Some e
        | None => inflight q' = inflight q
        end)
  /\ (forall p : Page.W,
     Page.inputValue (comp p) = s ->
     let p' := snd (Page.handleSend env p) in
     Page.inputValue (comp p') = lit ""
     /\ match encodeURIComponent s with
        | Some e =>
            inflight p' = inflight p ++ [post (endpoint ++ e)]
            /\ e <> []
            /\ encodeURIComponent (Page.inputValue (comp p')) <> Some e
        | None => inflight p' = inflight p
        end).
Proof.
  intros T.
  assert (NE : forall e, encodeURIComponent s = Some e -> e <> []).
  { intros e E ->. apply encodeURIComponent_nil in E. subst s.
    apply T. reflexivity. }
  assert (G : is_empty (trim s) = false).
  { destruct (trim s); [contradiction | reflexivity]. }
  split.
  - intros q L I q'. subst q'.
    assert (A : part0_accepts q = true)
      by (unfold part0_accepts; rewrite I, G, L; reflexivity).
    destruct (encodeURIComponent s) as [e |] eqn:E; rewrite <- I in E.
    + rewrite (part0_handleSend_sent env q e A E). simpl.
      rewrite I in E. specialize (NE e eq_refl).
      repeat split; [exact NE | congruence].
    + rewrite (part0_handleSend_uri_error env q A E). split; reflexivity.
  - intros p I p'. subst p'.
    assert (A : page_accepts p = true)
      by (unfold page_accepts; rewrite I, G; reflexivity).
    destruct (encodeURIComponent s) as [e |] eqn:E; rewrite <- I in E.
    + rewrite (page_handleSend_sent env p e A E). simpl.
      rewrite I in E. specialize (NE e eq_refl).
      repeat split; [exact NE | congruence].
    + rewrite (page_handleSend_uri_error env p A E). split; reflexivity.
Qed.

Lemma request_uses_captured_draft_witness :
  let q := Part0.step ticking (Change question) (Part0.initial ticking) in
  let q' := snd (Part0.handleSend ticking q) in
  trim question <> []
  /\ Part0.inputValue (comp q') = lit ""
  /\ inflight q'
     = [post (lit "http://localhost:8000/chat?question=Who%20hit%20the%20most%20home%20runs%20in%202023%3F")].
Proof.
  intros q q'.
  assert (T : trim question <> [])
    by (intros H; vm_compute in H; discriminate H).
  pose proof (proj1 (request_uses_captured_draft ticking question T)
                q eq_refl eq_refl) as [C R].
  split; [exact T |].
  split; [exact C |].
  exact (proj1 R).
Defined.

(* ================================================================== *)
(** ** The log                                                         *)
(* ================================================================== *)

Lemma part0_keydown_step env e (q : Part0.W) :
  Part0.step env (KeyDown e) q
  = if submits (KeyDown e) then Part0.step env Click q else q.
Proof.
  simpl. unfold Part0.handleKeyPress.
  destruct (jsstring_eqb (key e) (lit "Enter") && negb (shiftKey e));
    reflexivity.
Qed.

Lemma page_keydown_step env e (p : Page.W) :
  Page.step env (KeyDown e) p
  = if submits (KeyDown e) then Page.step env Click p else p.
Proof.
  simpl. unfold Page.handleKeyPress.
  destruct (jsstring_eqb (key e) (lit "Enter") && negb (shiftKey e));
    reflexivity.
Qed.

Lemma part0_handleSend_extends env (q : Part0.W) :
  exists added,
    Part0.messages (comp (snd (Part0.handleSend env q)))
    = Part0.messages (comp q) ++ added.
Proof.
  destruct (part0_accepts q) eqn:A.
  - destruct (encodeURIComponent (Part0.inputValue (comp q))) as [e |] eqn:E.
    + rewrite (part0_handleSend_sent env q e A E). eexists. reflexivity.
    + rewrite (part0_handleSend_uri_error env q A E). simpl.
      rewrite <- app_assoc. eexists. reflexivity.
  - apply negb_false_iff in A. rewrite (part0_gate_closed env q A).
    exists []. symmetry. apply app_nil_r.
Qed.

Lemma page_handleSend_extends env (p : Page.W) :
  exists added,
    Page.messages (comp (snd (Page.handleSend env p)))
    = Page.messages (comp p) ++ added.
Proof.
  destruct (page_accepts p) eqn:A.
  - destruct (encodeURIComponent (Page.inputValue (comp p))) as [e |] eqn:E.
    + rewrite (page_handleSend_sent env p e A E). eexists. reflexivity.
    + rewrite (page_handleSend_uri_error env p A E). simpl.
      rewrite <- app_assoc. eexists. reflexivity.
  - apply negb_false_iff in A. rewrite (page_gate_closed env p A).
    exists []. symmetry. apply app_nil_r.
Qed.

Lemma part0_settled_extends env o (q : Part0.W) :
  exists added,
    Part0.messages (comp (snd (Part0.handleSend_settled env o q)))
    = Part0.messages (comp q) ++ added.
Proof.
  destruct (fails o) eqn:F.
  - rewrite (part0_settled_failure env o q F). eexists. reflexivity.
  - apply fails_spec in F. destruct F as (st & d & v & -> & A).
    rewrite (part0_settled_answer env st d v q A). eexists. reflexivity.
Qed.

Lemma page_settled_extends env o (p : Page.W) :
  exists added,
    Page.messages (comp (snd (Page.handleSend_settled env o p)))
    = Page.messages (comp p) ++ added.
Proof.
  destruct (fails o) eqn:F.
  - rewrite (page_settled_failure env o p F). eexists. reflexivity.
  - apply fails_spec in F. destruct F as (st & d & v & -> & A).
    rewrite (page_settled_answer env st d v p A). eexists. reflexivity.
Qed.

Lemma part0_step_extends env ev (q : Part0.W) :
  exists added,
    Part0.messages (comp (Part0.step env ev q))
    = Part0.messages (comp q) ++ added.
Proof.
  destruct ev as [v | e | | i o].
  - exists []. simpl. symmetry. apply app_nil_r.
  - rewrite part0_keydown_step. destruct (submits (KeyDown e)).
    + apply part0_handleSend_extends.
    + exists []. symmetry. apply app_nil_r.
  - apply part0_handleSend_extends.
  - simpl. destruct (nth_error (inflight q) i).
    + apply (part0_settled_extends env o (take_inflight i q)).
    + exists []. symmetry. apply app_nil_r.
Qed.

Lemma page_step_extends env ev (p : Page.W) :
  exists added,
    Page.messages (comp (Page.step env ev p))
    = Page.messages (comp p) ++ added.
Proof.
  destruct ev as [v | e | | i o].
  - exists []. simpl. symmetry. apply app_nil_r.
  - rewrite page_keydown_step. destruct (submits (KeyDown e)).
    + apply page_handleSend_extends.
    + exists []. symmetry. apply app_nil_r.
  - apply page_handleSend_extends.
  - simpl. destruct (nth_error (inflight p) i).
    + apply (page_settled_extends env o (take_inflight i p)).
    + exists []. symmetry. apply app_nil_r.
Qed.

Lemma part0_run_cons env ev evs (q : Part0.W) :
  Part0.run env (ev :: evs) q = Part0.run env evs (Part0.step env ev q).
Proof. reflexivity. Qed.

Lemma page_run_cons env ev evs (p : Page.W) :
  Page.run env (ev :: evs) p = Page.run env evs (Page.step env ev p).
Proof. reflexivity. Qed.

Lemma part0_run_extends env evs : forall q : Part0.W,
  exists added,
    Part0.messages (comp (Part0.run env evs q))
    = Part0.messages (comp q) ++ added.
Proof.
  induction evs as [| ev evs IH]; intros q.
  - exists []. simpl. symmetry. apply app_nil_r.
  - rewrite part0_run_cons.
    destruct (IH (Part0.step env ev q)) as [a2 E2].
    destruct (part0_step_extends env ev q) as [a1 E1].
    exists (a1 ++ a2). rewrite E2, E1. symmetry. apply app_assoc.
Qed.

Lemma page_run_extends env evs : forall p : Page.W,
  exists added,
    Page.messages (comp (Page.run env evs p))
    = Page.messages (comp p) ++ added.
Proof.
  induction evs as [| ev evs IH]; intros p.
  - exists []. simpl. symmetry. apply app_nil_r.
  - rewrite page_run_cons.
    destruct (IH (Page.step env ev p)) as [a2 E2].
    destruct (page_step_extends env ev p) as [a1 E1].
    exists (a1 ++ a2). rewrite E2, E1. symmetry. apply app_assoc.
Qed.

(** C9: in both variants every state reached from the initial one has a
    log that starts with the assistant greeting, so it is never empty,
    and every event, and every sequence of events, only appends to the
    log: the former log is a prefix of the new one. *)
Theorem log_is_append_only env :
  (forall evs,
     exists rest,
       Part0.messages (comp (Part0.run env evs (Part0.initial env)))
       = assistant_message 1 (JStr greeting) (date env 0) :: rest)
  /\ (forall ev (q : Part0.W),
     exists added,
       Part0.messages (comp (Part0.step env ev q))
       = Part0.messages (comp q) ++ added)
  /\ (forall evs (q : Part0.W),
     exists added,
       Part0.messages (comp (Part0.run env evs q))
       = Part0.messages (comp q) ++ added)
  /\ (forall evs,
     exists rest,
       Page.messages (comp (Page.run env evs (Page.initial env)))
       = assistant_message 1 (JStr greeting) (date env 0) :: rest)
  /\ (forall ev (p : Page.W),
     exists added,
       Page.messages (comp (Page.step env ev p))
       = Page.messages (comp p) ++ added)
  /\ (forall evs (p : Page.W),
     exists added,
       Page.messages (comp (Page.run env evs p))
       = Page.messages (comp p) ++ added).
Proof.
  repeat split.
  - intros evs.
    destruct (part0_run_extends env evs (Part0.initial env)) as [a E].
    exists a. exact E.
  - intros ev q. apply part0_step_extends.
  - intros evs q. apply part0_run_extends.
  - intros evs.
    destruct (page_run_extends env evs (Page.initial env)) as [a E].
    exists a. exact E.
  - intros ev p. apply page_step_extends.
  - intros evs p. apply page_run_extends.
Qed.

(* ================================================================== *)
(** ** The two variants side by side                                   *)
(* ================================================================== *)

(** C2 (as stated) fails: a second submission while the first request is
    pending is logged by [page.tsx] and ignored by [part_000]. *)
Lemma variants_differ_on_overlapping_submission :
  ~ (forall env evs,
        map shown (Page.messages
                     (comp (Page.run env evs (Page.initial env))))
        = map shown (Part0.messages
                       (comp (Part0.run env evs (Part0.initial env))))).
Proof.
  intros H.
  specialize (H ticking [Change (lit "a"); Click; Change (lit "b"); Click]).
  vm_compute in H. discriminate H.
Qed.

Lemma same_session_initial env :
  same_session (Page.initial env) (Part0.initial env).
Proof. unfold same_session. simpl. repeat split. lia. Qed.

Lemma same_session_handleSend env (p : Page.W) (q : Part0.W) :
  same_session p q ->
  Part0.isLoading (comp q)
  && negb (is_empty (trim (Part0.inputValue (comp q)))) = false ->
  same_session (snd (Page.handleSend env p)) (snd (Part0.handleSend env q)).
Proof.
  intros (Hm & Hi & Hf & Hn & Hd & Hl & Hlen) O.
  destruct (is_empty (trim (Part0.inputValue (comp q)))) eqn:B.
  - (* blank draft: both return at the gate *)
    rewrite (part0_gate_closed env q) by (rewrite B; reflexivity).
    rewrite (page_gate_closed env p) by (rewrite Hi; exact B).
    unfold same_session. simpl. tauto.
  - rewrite andb_true_r in O.
    assert (Aq : part0_accepts q = true)
      by (unfold part0_accepts; rewrite B, O; reflexivity).
    assert (Ap : page_accepts p = true)
      by (unfold page_accepts; rewrite Hi, B; reflexivity).
    assert (Fp : inflight p = []).
    { rewrite O in Hl. unfold page_pending in Hl.
      destruct (inflight p); [reflexivity | discriminate Hl]. }
    assert (Fq : inflight q = []) by (rewrite <- Hf; exact Fp).
    destruct (encodeURIComponent (Part0.inputValue (comp q))) as [e |] eqn:E.
    + rewrite (part0_handleSend_sent env q e Aq E).
      rewrite (page_handleSend_sent env p e Ap) by (rewrite Hi; exact E).
      unfold same_session, page_pending. simpl.
      rewrite Hm, Hi, Hn, Hd, Fp, Fq. simpl. repeat split. lia.
    + rewrite (part0_handleSend_uri_error env q Aq E).
      rewrite (page_handleSend_uri_error env p Ap) by (rewrite Hi; exact E).
      unfold same_session, page_pending. simpl.
      rewrite Hm, Hi, Hn, Hd, Fp, Fq. simpl. repeat split. lia.
Qed.

Lemma same_session_settled env o (p : Page.W) (q : Part0.W) :
  Page.messages (comp p) = Part0.messages (comp q) ->
  Page.inputValue (comp p) = Part0.inputValue (comp q) ->
  nowCalls p = nowCalls q -> dateCalls p = dateCalls q ->
  inflight p = [] -> inflight q = [] ->
  same_session (snd (Page.handleSend_settled env o p))
               (snd (Part0.handleSend_settled env o q)).
Proof.
  intros Hm Hi Hn Hd Fp Fq.
  destruct (fails o) eqn:F.
  - rewrite (part0_settled_failure env o q F).
    rewrite (page_settled_failure env o p F).
    unfold same_session, page_pending. simpl.
    rewrite Hm, Hi, Hn, Hd, Fp, Fq. simpl. repeat split. lia.
  - apply fails_spec in F. destruct F as (st & d & v & -> & A).
    rewrite (part0_settled_answer env st d v q A).
    rewrite (page_settled_answer env st d v p A).
    unfold same_session, page_pending. simpl.
    rewrite Hm, Hi, Hn, Hd, Fp, Fq. simpl. repeat split. lia.
Qed.

(** In [part_000] at most one request is pending, so the request that
    ends is the only one. *)
Lemma same_session_take env (p : Page.W) (q : Part0.W) i r o :
  same_session p q -> nth_error (inflight q) i = Some r ->
  same_session (snd (Page.handleSend_settled env o (take_inflight i p)))
               (snd (Part0.handleSend_settled env o (take_inflight i q))).
Proof.
  intros (Hm & Hi & Hf & Hn & Hd & Hl & Hlen) N.
  assert (Q : inflight q = [r] /\ i = 0%nat).
  { destruct (inflight q) as [| r0 [| r1 rs]].
    - destruct i; discriminate N.
    - destruct i as [| i]; [injection N as ->; split; reflexivity |].
      destruct i; discriminate N.
    - simpl in Hlen. lia. }
  destruct Q as [Q ->].
  apply same_session_settled; unfold take_inflight; simpl;
    try assumption.
  - rewrite Hf, Q. reflexivity.
  - rewrite Q. reflexivity.
Qed.

Lemma same_session_step env ev (p : Page.W) (q : Part0.W) :
  same_session p q -> overlapping ev q = false ->
  same_session (Page.step env ev p) (Part0.step env ev q).
Proof.
  intros S O. destruct ev as [v | e | | i o].
  - destruct S as (Hm & Hi & Hf & Hn & Hd & Hl & Hlen).
    unfold same_session, page_pending in *. simpl. tauto.
  - rewrite page_keydown_step, part0_keydown_step.
    unfold overlapping in O.
    destruct (submits (KeyDown e)); [| exact S].
    apply same_session_handleSend; [exact S |].
    rewrite <- andb_assoc in O. exact O.
  - apply same_session_handleSend; [exact S |].
    unfold overlapping in O. rewrite <- andb_assoc in O. exact O.
  - simpl. pose proof S as (_ & _ & Hf & _).
    rewrite Hf. destruct (nth_error (inflight q) i) as [r |] eqn:N.
    + exact (same_session_take env p q i r o S N).
    + exact S.
Qed.

(** C2 (as amended): on every sequence of events in which no non-blank
    draft is submitted while a turn is pending, the two variants stay in
    step: same log (ids, texts, senders, timestamps), same draft, same
    pending requests, same clock reads, and the flag of [part_000] is up
    exactly while [page.tsx] has a request pending.  On an overlapping
    submission they part: [part_000] ignores it, [page.tsx] admits it. *)
Theorem variants_agree_on_single_flight env (evs : list event) :
  single_flight env evs (Part0.initial env) = true ->
  same_session (Page.run env evs (Page.initial env))
               (Part0.run env evs (Part0.initial env)).
Proof.
  generalize (same_session_initial env).
  generalize (Page.initial env) (Part0.initial env).
  induction evs as [| ev evs IH]; intros p q S F.
  - exact S.
  - rewrite page_run_cons, part0_run_cons.
    simpl in F. apply andb_true_iff in F. destruct F as [O F].
    apply negb_true_iff in O.
    apply IH; [| exact F].
    apply same_session_step; assumption.
Qed.

Lemma variants_agree_on_single_flight_witness :
  let evs := [Change question; KeyDown Enter;
              Change (lit "and in 2022?");
              Settle 0 (answered (lit "Shohei Ohtani"));
              Click; Settle 0 NetworkError] in
  single_flight ticking evs (Part0.initial ticking) = true
  /\ same_session (Page.run ticking evs (Page.initial ticking))
                  (Part0.run ticking evs (Part0.initial ticking)).
Proof.
  intros evs.
  exact (conj eq_refl (variants_agree_on_single_flight ticking evs eq_refl)).
Defined.

(* ================================================================== *)
(** ** Message ids                                                     *)
(* ================================================================== *)

(** C8, at the failing input: when the two [Date.now()] reads of a turn
    fall in the same millisecond [t], the user message and its reply
    carry the same id.  That is so when the request is rejected at once,
    and when the draft holds an unpaired surrogate, where both messages
    are created in one synchronous run of [handleSend]. *)
Theorem ids_collide_within_a_millisecond (t : Z) :
  let rejected := [Change question; Click; Settle 0 NetworkError] in
  let unpaired := [Change [55357%N]; Click] in
  map id (Part0.messages
            (comp (Part0.run (frozen t) rejected (Part0.initial (frozen t)))))
  = [1%Z; t; t]
  /\ map id (Part0.messages
            (comp (Part0.run (frozen t) unpaired (Part0.initial (frozen t)))))
     = [1%Z; t; t]
  /\ map id (Page.messages
            (comp (Page.run (frozen t) rejected (Page.initial (frozen t)))))
     = [1%Z; t; t]
  /\ ~ NoDup (map id (Part0.messages
         (comp (Part0.run (frozen t) rejected (Part0.initial (frozen t)))))).
Proof.
  intros rejected unpaired.
  assert (E : map id (Part0.messages
            (comp (Part0.run (frozen t) rejected (Part0.initial (frozen t)))))
          = [1%Z; t; t]) by reflexivity.
  repeat split; try reflexivity.
  rewrite E. intros D. inversion D as [| x l N1 D1]; subst.
  inversion D1 as [| y l' N2 D2]; subst. apply N2. left. reflexivity.
Qed.

(** What does hold: ids are pairwise distinct as long as the clock
    never returns the same millisecond twice, nor the seed id. *)
Section DistinctReads.
Variable env : Env.
Hypothesis now_injective : forall j k, now env j = now env k -> j = k.
Hypothesis now_not_seed : forall k, now env k <> 1%Z.

Lemma ids_fresh_weaken ms n n' :
  ids_fresh env ms n -> (n <= n')%nat -> ids_fresh env ms n'.
Proof.
  intros [D F] L. split; [exact D |].
  revert F. apply Forall_impl. intros m [S | (k & K & E)];
    [left; exact S | right; exists k; split; [lia | exact E]].
Qed.

Lemma ids_fresh_snoc ms n m k :
  ids_fresh env ms n -> (n <= k)%nat -> id m = now env k ->
  ids_fresh env (ms ++ [m]) (S k).
Proof.
  intros [D F] L E. split.
  - rewrite map_app. simpl.
    apply NoDup_app;
      [exact D | constructor; [intros [] | constructor] |].
    intros x X [<- | []].
    apply in_map_iff in X. destruct X as (m' & E' & M').
    rewrite Forall_forall in F. destruct (F m' M') as [S | (j & J & Ej)].
    + apply (now_not_seed k). congruence.
    + assert (j = k) by (apply now_injective; congruence). lia.
  - apply Forall_app. split.
    + revert F. apply Forall_impl. intros m' [S | (j & J & Ej)];
        [left; exact S | right; exists j; split; [lia | exact Ej]].
    + constructor; [| constructor]. right. exists k. split; [lia | exact E].
Qed.

Lemma part0_step_ids_fresh ev (q : Part0.W) :
  ids_fresh env (Part0.messages (comp q)) (nowCalls q) ->
  ids_fresh env (Part0.messages (comp (Part0.step env ev q)))
            (nowCalls (Part0.step env ev q)).
Proof.
  assert (S : forall q : Part0.W,
    ids_fresh env (Part0.messages (comp q)) (nowCalls q) ->
    ids_fresh env (Part0.messages (comp (snd (Part0.handleSend env q))))
              (nowCalls (snd (Part0.handleSend env q)))).
  { clear q. intros q I. destruct (part0_accepts q) eqn:A.
    - destruct (encodeURIComponent (Part0.inputValue (comp q)))
        as [e |] eqn:E.
      + rewrite (part0_handleSend_sent env q e A E). simpl.
        apply ids_fresh_snoc with (n := nowCalls q);
          [exact I | lia | reflexivity].
      + rewrite (part0_handleSend_uri_error env q A E). simpl.
        apply ids_fresh_snoc with (n := S (nowCalls q));
          [| lia | reflexivity].
        apply ids_fresh_snoc with (n := nowCalls q);
          [exact I | lia | reflexivity].
    - apply negb_false_iff in A. rewrite (part0_gate_closed env q A).
      exact I. }
  intros I. destruct ev as [v | e | | i o].
  - exact I.
  - rewrite part0_keydown_step. destruct (submits (KeyDown e));
      [apply S; exact I | exact I].
  - apply S. exact I.
  - simpl. destruct (nth_error (inflight q) i); [| exact I].
    destruct (fails o) eqn:F.
    + rewrite (part0_settled_failure env o _ F). simpl.
      apply ids_fresh_snoc with (n := nowCalls q);
        [exact I | lia | reflexivity].
    + apply fails_spec in F. destruct F as (st & d & v & -> & A).
      rewrite (part0_settled_answer env st d v _ A). simpl.
      apply ids_fresh_snoc with (n := nowCalls q);
        [exact I | lia | reflexivity].
Qed.

Lemma page_step_ids_fresh ev (p : Page.W) :
  ids_fresh env (Page.messages (comp p)) (nowCalls p) ->
  ids_fresh env (Page.messages (comp (Page.step env ev p)))
            (nowCalls (Page.step env ev p)).
Proof.
  assert (S : forall p : Page.W,
    ids_fresh env (Page.messages (comp p)) (nowCalls p) ->
    ids_fresh env (Page.messages (comp (snd (Page.handleSend env p))))
              (nowCalls (snd (Page.handleSend env p)))).
  { clear p. intros p I. destruct (page_accepts p) eqn:A.
    - destruct (encodeURIComponent (Page.inputValue (comp p)))
        as [e |] eqn:E.
      + rewrite (page_handleSend_sent env p e A E). simpl.
        apply ids_fresh_snoc with (n := nowCalls p);
          [exact I | lia | reflexivity].
      + rewrite (page_handleSend_uri_error env p A E). simpl.
        apply ids_fresh_snoc with (n := S (nowCalls p));
          [| lia | reflexivity].
        apply ids_fresh_snoc with (n := nowCalls p);
          [exact I | lia | reflexivity].
    - apply negb_false_iff in A. rewrite (page_gate_closed env p A).
      exact I. }
  intros I. destruct ev as [v | e | | i o].
  - exact I.
  - rewrite page_keydown_step. destruct (submits (KeyDown e));
      [apply S; exact I | exact I].
  - apply S. exact I.
  - simpl. destruct (nth_error (inflight p) i); [| exact I].
    destruct (fails o) eqn:F.
    + rewrite (page_settled_failure env o _ F). simpl.
      apply ids_fresh_snoc with (n := nowCalls p);
        [exact I | lia | reflexivity].
    + apply fails_spec in F. destruct F as (st & d & v & -> & A).
      rewrite (page_settled_answer env st d v _ A). simpl.
      apply ids_fresh_snoc with (n := nowCalls p);
        [exact I | lia | reflexivity].
Qed.

(** X6: the ids of the log are pairwise distinct in every state either
    variant reaches, provided [Date.now()] never returns the same value
    twice nor the seed id 1. *)
Lemma ids_distinct_when_reads_differ (evs : list event) :
  NoDup (map id (Part0.messages
                   (comp (Part0.run env evs (Part0.initial env)))))
  /\ NoDup (map id (Page.messages
                   (comp (Page.run env evs (Page.initial env))))).
Proof.
  assert (I0 : ids_fresh env [seed (date env 0)] 0).
  { split; [constructor; [intros [] | constructor] |].
    constructor; [left; reflexivity | constructor]. }
  split.
  - assert (G : forall q : Part0.W,
      ids_fresh env (Part0.messages (comp q)) (nowCalls q) ->
      ids_fresh env (Part0.messages (comp (Part0.run env evs q)))
                (nowCalls (Part0.run env evs q))).
    { induction evs as [| ev evs' IH]; intros q I; [exact I |].
      rewrite part0_run_cons. apply IH, part0_step_ids_fresh, I. }
    exact (proj1 (G (Part0.initial env) I0)).
  - assert (G : forall p : Page.W,
      ids_fresh env (Page.messages (comp p)) (nowCalls p) ->
      ids_fresh env (Page.messages (comp (Page.run env evs p)))
                (nowCalls (Page.run env evs p))).
    { induction evs as [| ev evs' IH]; intros p I; [exact I |].
      rewrite page_run_cons. apply IH, page_step_ids_fresh, I. }
    exact (proj1 (G (Page.initial env) I0)).
Qed.
End DistinctReads.

(* ================================================================== *)
(** ** Single flight and the shape of the log in [part_000]            *)
(* ================================================================== *)

Lemma turns_snoc (n : nat) : turns n ++ [user; assistant] = turns (S n).
Proof.
  induction n as [| n IH]; [reflexivity |].
  change (turns (S n)) with (user :: assistant :: turns n).
  simpl. rewrite IH. reflexivity.
Qed.

Lemma part0_handleSend_keeps_shape env (q : Part0.W) :
  single_request q /\ turn_shaped q ->
  single_request (snd (Part0.handleSend env q))
  /\ turn_shaped (snd (Part0.handleSend env q)).
Proof.
  intros [[Len Flag] [n Sh]].
  destruct (part0_accepts q) eqn:A.
  - pose proof (part0_accepts_gate q A) as G.
    apply orb_false_iff in G. destruct G as [_ L].
    assert (F : inflight q = []).
    { destruct (inflight q) as [| r rs] eqn:E; [reflexivity |].
      assert (Part0.isLoading (comp q) = true)
        by (apply Flag; discriminate).
      congruence. }
    rewrite L in Sh.
    destruct (encodeURIComponent (Part0.inputValue (comp q))) as [e |] eqn:E.
    + rewrite (part0_handleSend_sent env q e A E).
      unfold single_request, turn_shaped. simpl. rewrite F. simpl.
      split; [split; [lia | split; [discriminate | reflexivity]] |].
      exists n. rewrite map_app, Sh. simpl. rewrite app_nil_r. reflexivity.
    + rewrite (part0_handleSend_uri_error env q A E).
      unfold single_request, turn_shaped. simpl. rewrite F. simpl.
      split; [split; [lia | split; [discriminate | congruence]] |].
      exists (S n). rewrite !map_app, Sh. simpl.
      rewrite !app_nil_r, <- app_assoc. simpl.
      rewrite (turns_snoc n). reflexivity.
  - apply negb_false_iff in A. rewrite (part0_gate_closed env q A).
    split; [split; assumption | exists n; exact Sh].
Qed.

Lemma part0_step_keeps_shape env ev (q : Part0.W) :
  single_request q /\ turn_shaped q ->
  single_request (Part0.step env ev q) /\ turn_shaped (Part0.step env ev q).
Proof.
  intros I. destruct ev as [v | e | | i o].
  - destruct I as [[Len Flag] [n Sh]].
    split; [split; assumption | exists n; exact Sh].
  - rewrite part0_keydown_step. destruct (submits (KeyDown e));
      [apply part0_handleSend_keeps_shape; exact I | exact I].
  - apply part0_handleSend_keeps_shape. exact I.
  - simpl. destruct (nth_error (inflight q) i) as [r |] eqn:N; [| exact I].
    destruct I as [[Len Flag] [n Sh]].
    assert (Q : inflight q = [r] /\ i = 0%nat).
    { destruct (inflight q) as [| r0 [| r1 rs]].
      - destruct i; discriminate N.
      - destruct i as [| i]; [injection N as ->; split; reflexivity |].
        destruct i; discriminate N.
      - simpl in Len. lia. }
    destruct Q as [Q ->].
    assert (L : Part0.isLoading (comp q) = true)
      by (apply Flag; rewrite Q; discriminate).
    rewrite L in Sh.
    assert (R : exists m,
      snd (Part0.handleSend_settled env o (take_inflight 0 q))
      = {| comp := {| Part0.messages := Part0.messages (comp q) ++ [m];
                      Part0.inputValue := Part0.inputValue (comp q);
                      Part0.isLoading := false |};
           inflight := [];
           nowCalls := nowCalls (snd (Part0.handleSend_settled env o
                                        (take_inflight 0 q)));
           dateCalls := S (dateCalls q) |}
      /\ sender m = assistant).
    { destruct (fails o) eqn:F.
      - rewrite (part0_settled_failure env o _ F). simpl. rewrite Q.
        eexists. split; reflexivity.
      - apply fails_spec in F. destruct F as (st & d & v & -> & A).
        rewrite (part0_settled_answer env st d v _ A). simpl. rewrite Q.
        eexists. split; reflexivity. }
    destruct R as (m & -> & Sm).
    unfold single_request, turn_shaped. simpl.
    split; [split; [lia | split; [discriminate | congruence]] |].
    exists (S n). rewrite map_app, Sh. simpl. rewrite Sm.
    rewrite app_nil_r, <- app_assoc. simpl.
    rewrite (turns_snoc n). reflexivity.
Qed.

Lemma part0_run_keeps_shape env evs : forall q : Part0.W,
  single_request q /\ turn_shaped q ->
  single_request (Part0.run env evs q) /\ turn_shaped (Part0.run env evs q).
Proof.
  induction evs as [| ev evs IH]; intros q I; [exact I |].
  rewrite part0_run_cons. apply IH, part0_step_keeps_shape, I.
Qed.

Lemma part0_initial_shape env :
  single_request (Part0.initial env) /\ turn_shaped (Part0.initial env).
Proof.
  split.
  - split; [simpl; lia |]. simpl. split; [discriminate | congruence].
  - exists 0%nat. reflexivity.
Qed.

Lemma part0_log_is_shaped_run env (evs : list event) :
  turn_shaped (Part0.run env evs (Part0.initial env)).
Proof.
  exact (proj2 (part0_run_keeps_shape env evs _ (part0_initial_shape env))).
Qed.

(** X1: whatever the user does and however requests end, [part_000] has
    at most one request pending, and [isLoading] is true exactly while
    one is. *)
Theorem part0_is_single_flight env (evs : list event) :
  let w := Part0.run env evs (Part0.initial env) in
  (List.length (inflight w) <= 1)%nat
  /\ (Part0.isLoading (comp w) = true <-> inflight w <> []).
Proof.
  exact (proj1 (part0_run_keeps_shape env evs _ (part0_initial_shape env))).
Qed.

(** X2: in every state [part_000] reaches, the log is the greeting
    followed by completed turns, each a user message and right after it
    one assistant message, and, exactly while [isLoading] is true, the
    user message of the pending turn at the end. *)
Theorem part0_log_is_turn_shaped env (evs : list event) :
  let w := Part0.run env evs (Part0.initial env) in
  exists n,
    map sender (Part0.messages (comp w))
    = assistant :: turns n
      ++ (if Part0.isLoading (comp w) then [user] else []).
Proof.
  exact (proj2 (part0_run_keeps_shape env evs _ (part0_initial_shape env))).
Qed.

(* ================================================================== *)
(** ** Overlapping turns in [page.tsx], hung requests in [part_000]    *)
(* ================================================================== *)

Lemma page_submission env (s e : jsstring) (p : Page.W) :
  trim s <> [] -> encodeURIComponent s = Some e ->
  let p' := Page.step env Click (Page.step env (Change s) p) in
  inflight p' = inflight p ++ [post (endpoint ++ e)]
  /\ map shown (Page.messages (comp p'))
     = map shown (Page.messages (comp p)) ++ [(JStr s, user)].
Proof.
  intros T E p'. subst p'.
  set (p1 := Page.step env (Change s) p).
  assert (I : Page.inputValue (comp p1) = s) by reflexivity.
  assert (A : page_accepts p1 = true).
  { unfold page_accepts. rewrite I. destruct (trim s); [contradiction |].
    reflexivity. }
  change (Page.step env Click p1) with (snd (Page.handleSend env p1)).
  rewrite (page_handleSend_sent env p1 e A) by (rewrite I; exact E).
  simpl. rewrite map_app. split; reflexivity.
Qed.

(** X3: [page.tsx] puts no bound on overlapping turns: [n] submissions of
    a non-blank draft in a row, none of them answered yet, leave [n] more
    requests pending and [n] more user messages at the end of the log. *)
Theorem page_overlaps_without_bound env (s e : jsstring) (n : nat) :
  trim s <> [] -> encodeURIComponent s = Some e ->
  forall p : Page.W,
    let p' := Page.run env (submissions s n) p in
    inflight p' = inflight p ++ repeat (post (endpoint ++ e)) n
    /\ map shown (Page.messages (comp p'))
       = map shown (Page.messages (comp p)) ++ repeat (JStr s, user) n.
Proof.
  intros T E. induction n as [| n IH]; intros p p'; subst p'.
  - simpl. rewrite !app_nil_r. split; reflexivity.
  - change (submissions s (S n)) with (Change s :: Click :: submissions s n).
    rewrite !page_run_cons.
    destruct (IH (Page.step env Click (Page.step env (Change s) p)))
      as [F M].
    destruct (page_submission env s e p T E) as [F1 M1].
    rewrite F, M, F1, M1, <- !app_assoc. split; reflexivity.
Qed.

Lemma page_overlaps_without_bound_witness :
  let p := Page.run ticking (submissions question 3) (Page.initial ticking) in
  trim question <> []
  /\ List.length (inflight p) = 3%nat
  /\ map sender (Page.messages (comp p)) = [assistant; user; user; user].
Proof.
  intros p.
  assert (T : trim question <> [])
    by (intros H; vm_compute in H; discriminate H).
  destruct (page_overlaps_without_bound ticking question _ 3 T eq_refl
              (Page.initial ticking)) as [F M].
  split; [exact T |].
  split.
  - subst p. rewrite F. reflexivity.
  - subst p.
    rewrite <- (map_map shown snd (Page.messages _)).
    rewrite M. reflexivity.
Defined.

Lemma part0_handleSend_noop_pending env (w : Part0.W) :
  Part0.isLoading (comp w) = true ->
  Part0.handleSend env w = (Normal tt, w)
  /\ Part0.step env Click w = w
  /\ forall e, Part0.step env (KeyDown e) w = w.
Proof.
  intros L.
  assert (G : is_empty (trim (Part0.inputValue (comp w)))
              || Part0.isLoading (comp w) = true)
    by (rewrite L; apply orb_true_r).
  split; [exact (part0_gate_closed env w G) |].
  split.
  - simpl. rewrite (part0_gate_closed env w G). reflexivity.
  - intros e. simpl. exact (part0_keypress_gate_closed env e w G).
Qed.

Lemma part0_waits env ev (q : Part0.W) :
  is_settle ev = false -> Part0.isLoading (comp q) = true ->
  let q' := Part0.step env ev q in
  Part0.isLoading (comp q') = true
  /\ Part0.messages (comp q') = Part0.messages (comp q)
  /\ inflight q' = inflight q.
Proof.
  intros NS L q'. subst q'.
  destruct ev as [v | e | | i o]; try discriminate NS.
  - simpl. repeat split. exact L.
  - rewrite (proj2 (proj2 (part0_handleSend_noop_pending env q L)) e).
    repeat split. exact L.
  - rewrite (proj1 (proj2 (part0_handleSend_noop_pending env q L))).
    repeat split. exact L.
Qed.

(** X4: [part_000] has no timeout and no cancellation: while a turn is
    pending, no sequence of typing, clicks and key presses changes the
    log, the pending request or the flag; only the end of the request
    does. *)
Theorem part0_pending_until_settled env (evs : list event) :
  forallb (fun ev => negb (is_settle ev)) evs = true ->
  forall q : Part0.W,
    Part0.isLoading (comp q) = true ->
    let q' := Part0.run env evs q in
    Part0.isLoading (comp q') = true
    /\ Part0.messages (comp q') = Part0.messages (comp q)
    /\ inflight q' = inflight q.
Proof.
  induction evs as [| ev evs IH]; intros NS q L q'; subst q'.
  - repeat split. exact L.
  - simpl in NS. apply andb_true_iff in NS. destruct NS as [N1 NS].
    apply negb_true_iff in N1.
    rewrite part0_run_cons.
    destruct (part0_waits env ev q N1 L) as (L1 & M1 & F1).
    destruct (IH NS (Part0.step env ev q) L1) as (L2 & M2 & F2).
    rewrite L2, M2, F2, M1, F1. repeat split.
Qed.

Lemma part0_pending_until_settled_witness :
  let q := Part0.run ticking [Change question; Click] (Part0.initial ticking) in
  let evs := [Change (lit "and in 2022?"); Click; KeyDown Enter;
              Change (lit ""); Click] in
  Part0.isLoading (comp q) = true
  /\ Part0.isLoading (comp (Part0.run ticking evs q)) = true
  /\ Part0.messages (comp (Part0.run ticking evs q))
     = Part0.messages (comp q)
  /\ inflight (Part0.run ticking evs q) = inflight q.
Proof.
  intros q evs.
  exact (conj eq_refl
           (part0_pending_until_settled ticking evs eq_refl q eq_refl)).
Defined.

(* ================================================================== *)
(** ** Timestamps                                                      *)
(* ================================================================== *)










Lemma ticking_now_injective :
  forall j k, now ticking j = now ticking k -> j = k.
Proof. intros j k H. unfold ticking in H. cbn [now] in H. lia. Defined.

Lemma ticking_now_not_seed : forall k, now ticking k <> 1%Z.
Proof. intros k H. unfold ticking in H. cbn [now] in H. lia. Defined.

Lemma ids_distinct_when_reads_differ_witness :
  let evs := submissions question 2
             ++ [Settle 1 NetworkError; Settle 0 (Response 200 (Some JNull))] in
  (forall j k, now ticking j = now ticking k -> j = k)
  /\ (forall k, now ticking k <> 1%Z)
  /\ NoDup (map id (Part0.messages
                      (comp (Part0.run ticking evs (Part0.initial ticking)))))
  /\ NoDup (map id (Page.messages
                      (comp (Page.run ticking evs (Page.initial ticking))))).
Proof.
  intros evs.
  exact (conj ticking_now_injective
          (conj ticking_now_not_seed
             (ids_distinct_when_reads_differ ticking ticking_now_injective
                ticking_now_not_seed evs))).
Defined.

(* ================================================================== *)
(** ** Completions of the handlers                                     *)
(* ================================================================== *)

Lemma part0_handleSend_completion env (q : Part0.W) :
  fst (Part0.handleSend env q) = Normal tt
  \/ fst (Part0.handleSend env q) = Suspended.
Proof.
  destruct (part0_accepts q) eqn:A.
  - destruct (encodeURIComponent (Part0.inputValue (comp q))) as [e |] eqn:E.
    + rewrite (part0_handleSend_sent env q e A E). right. reflexivity.
    + rewrite (part0_handleSend_uri_error env q A E). left. reflexivity.
  - apply negb_false_iff in A. rewrite (part0_gate_closed env q A).
    left. reflexivity.
Qed.

Lemma page_handleSend_completion env (p : Page.W) :
  fst (Page.handleSend env p) = Normal tt
  \/ fst (Page.handleSend env p) = Suspended.
Proof.
  destruct (page_accepts p) eqn:A.
  - destruct (encodeURIComponent (Page.inputValue (comp p))) as [e |] eqn:E.
    + rewrite (page_handleSend_sent env p e A E). right. reflexivity.
    + rewrite (page_handleSend_uri_error env p A E). left. reflexivity.
  - apply negb_false_iff in A. rewrite (page_gate_closed env p A).
    left. reflexivity.
Qed.

Lemma page_settled_completion env o (p : Page.W) :
  fst (Page.handleSend_settled env o p) = Normal tt.
Proof.
  destruct (fails o) eqn:F.
  - rewrite (page_settled_failure env o p F). reflexivity.
  - apply fails_spec in F. destruct F as (st & d & v & -> & A).
    rewrite (page_settled_answer env st d v p A). reflexivity.
Qed.

Lemma part0_settled_completion env o (q : Part0.W) :
  fst (Part0.handleSend_settled env o q) = Normal tt.
Proof.
  destruct (fails o) eqn:F.
  - rewrite (part0_settled_failure env o q F). reflexivity.
  - apply fails_spec in F. destruct F as (st & d & v & -> & A).
    rewrite (part0_settled_answer env st d v q A). reflexivity.
Qed.

(** X7: no call of [handleSend] ends in a rejected promise, in either
    variant, in any state and for any outcome of the request: the part up
    to the [await] never throws (a [URIError] of [encodeURIComponent] is
    caught), and the part after it always completes normally.  A call
    stays suspended at the [await] exactly when it issued a request. *)
Theorem handleSend_never_rejects env :
  (forall (q : Part0.W) e, fst (Part0.handleSend env q) <> Throw e)
  /\ (forall (p : Page.W) e, fst (Page.handleSend env p) <> Throw e)
  /\ (forall o (q : Part0.W),
        fst (Part0.handleSend_settled env o q) = Normal tt)
  /\ (forall o (p : Page.W),
        fst (Page.handleSend_settled env o p) = Normal tt)
  /\ (forall q : Part0.W,
        fst (Part0.handleSend env q) = Suspended <->
        List.length (inflight (snd (Part0.handleSend env q)))
        = S (List.length (inflight q)))
  /\ (forall p : Page.W,
        fst (Page.handleSend env p) = Suspended <->
        List.length (inflight (snd (Page.handleSend env p)))
        = S (List.length (inflight p))).
Proof.
  split; [| split; [| split; [| split; [| split]]]].
  - intros q e. destruct (part0_handleSend_completion env q) as [H | H];
      rewrite H; discriminate.
  - intros p e. destruct (page_handleSend_completion env p) as [H | H];
      rewrite H; discriminate.
  - intros o q. apply part0_settled_completion.
  - intros o p. apply page_settled_completion.
  - intros q. destruct (part0_accepts q) eqn:A.
    + destruct (encodeURIComponent (Part0.inputValue (comp q)))
        as [e |] eqn:E.
      * rewrite (part0_handleSend_sent env q e A E). simpl.
        rewrite length_app. simpl. split; intros _; [lia | reflexivity].
      * rewrite (part0_handleSend_uri_error env q A E). simpl.
        split; [discriminate | lia].
    + apply negb_false_iff in A. rewrite (part0_gate_closed env q A). simpl.
      split; [discriminate | lia].
  - intros p. destruct (page_accepts p) eqn:A.
    + destruct (encodeURIComponent (Page.inputValue (comp p)))
        as [e |] eqn:E.
      * rewrite (page_handleSend_sent env p e A E). simpl.
        rewrite length_app. simpl. split; intros _; [lia | reflexivity].
      * rewrite (page_handleSend_uri_error env p A E). simpl.
        split; [discriminate | lia].
    + apply negb_false_iff in A. rewrite (page_gate_closed env p A). simpl.
      split; [discriminate | lia].
Qed.

(* ================================================================== *)
(** ** The key handler and the send button                             *)
(* ================================================================== *)

Lemma jsstring_eqb_eq (a b : jsstring) : jsstring_eqb a b = true <-> a = b.
Proof.
  unfold jsstring_eqb. destruct (list_eq_dec N.eq_dec a b);
    split; congruence.
Qed.

(** X8: [handleKeyPress] submits on Enter without Shift and on nothing
    else.  On such a key press it calls [preventDefault] and leaves the
    state that a click on the send button would leave; with Shift held or
    any other key it neither prevents the default (the newline is typed)
    nor changes anything.  It completes normally also when [handleSend]
    stays suspended. *)
Theorem enter_submits_other_keys_pass env (e : KeyEvent) :
  (key e = lit "Enter" -> shiftKey e = false ->
     (forall q : Part0.W,
        Part0.handleKeyPress env e q
        = (Normal true, Part0.step env Click q))
     /\ (forall p : Page.W,
        Page.handleKeyPress env e p = (Normal true, Page.step env Click p)))
  /\ (key e <> lit "Enter" \/ shiftKey e = true ->
     (forall q : Part0.W, Part0.handleKeyPress env e q = (Normal false, q))
     /\ (forall p : Page.W, Page.handleKeyPress env e p = (Normal false, p))).
Proof.
  split.
  - intros K S.
    assert (C : jsstring_eqb (key e) (lit "Enter") && negb (shiftKey e)
                = true).
    { rewrite S, andb_true_r. apply jsstring_eqb_eq. exact K. }
    split; intros w.
    + unfold Part0.handleKeyPress. rewrite C. reflexivity.
    + unfold Page.handleKeyPress. rewrite C. reflexivity.
  - intros H.
    assert (C : jsstring_eqb (key e) (lit "Enter") && negb (shiftKey e)
                = false).
    { destruct H as [K | S].
      - destruct (jsstring_eqb (key e) (lit "Enter")) eqn:B;
          [| reflexivity].
        apply jsstring_eqb_eq in B. contradiction.
      - rewrite S. apply andb_false_r. }
    split; intros w.
    + unfold Part0.handleKeyPress. rewrite C. reflexivity.
    + unfold Page.handleKeyPress. rewrite C. reflexivity.
Qed.

Lemma enter_submits_other_keys_pass_witness :
  let q := Part0.step ticking (Change question) (Part0.initial ticking) in
  let shiftEnter := {| key := lit "Enter"; shiftKey := true |} in
  (key Enter = lit "Enter" /\ shiftKey Enter = false)
  /\ Part0.handleKeyPress ticking Enter q
     = (Normal true, Part0.step ticking Click q)
  /\ Part0.handleKeyPress ticking shiftEnter q = (Normal false, q).
Proof.
  intros q shiftEnter.
  exact (conj (conj eq_refl eq_refl)
          (conj (proj1 (proj1 (enter_submits_other_keys_pass ticking Enter)
                         eq_refl eq_refl) q)
                (proj1 (proj2 (enter_submits_other_keys_pass ticking
                                 shiftEnter) (or_intror eq_refl)) q))).
Defined.

Lemma part0_noop_iff_gate env (q : Part0.W) :
  snd (Part0.handleSend env q) = q <-> Part0.sendDisabled q = true.
Proof.
  split.
  - intros H. destruct (Part0.sendDisabled q) eqn:D; [reflexivity |].
    exfalso.
    assert (A : part0_accepts q = true)
      by (unfold part0_accepts; fold (Part0.sendDisabled q); rewrite D;
          reflexivity).
    apply (f_equal (@nowCalls _)) in H. revert H.
    destruct (encodeURIComponent (Part0.inputValue (comp q))) as [e |] eqn:E.
    + rewrite (part0_handleSend_sent env q e A E). simpl. lia.
    + rewrite (part0_handleSend_uri_error env q A E). simpl. lia.
  - intros D. rewrite (part0_gate_closed env q D). reflexivity.
Qed.

Lemma page_noop_iff_gate env (p : Page.W) :
  snd (Page.handleSend env p) = p <-> Page.sendDisabled p = true.
Proof.
  split.
  - intros H. destruct (Page.sendDisabled p) eqn:D; [reflexivity |].
    exfalso.
    assert (A : page_accepts p = true)
      by (unfold page_accepts; fold (Page.sendDisabled p); rewrite D;
          reflexivity).
    apply (f_equal (@nowCalls _)) in H. revert H.
    destruct (encodeURIComponent (Page.inputValue (comp p))) as [e |] eqn:E.
    + rewrite (page_handleSend_sent env p e A E). simpl. lia.
    + rewrite (page_handleSend_uri_error env p A E). simpl. lia.
  - intros D. rewrite (page_gate_closed env p D). reflexivity.
Qed.

(** X9: the send button is disabled in exactly the states in which
    [handleSend] does nothing: in both variants the [disabled] attribute
    of the render and the gate of the handler agree, so an enabled button
    always logs the draft as a user message and empties the draft, and
    the key handler, which does not look at the button, submits no more
    than the button would. *)
Theorem send_button_matches_gate env :
  (forall q : Part0.W,
     (Part0.sendDisabled q = true <-> snd (Part0.handleSend env q) = q)
     /\ (Part0.sendDisabled q = false ->
         exists rest,
           Part0.messages (comp (snd (Part0.handleSend env q)))
           = Part0.messages (comp q)
             ++ user_message (now env (nowCalls q))
                  (Part0.inputValue (comp q)) (date env (dateCalls q))
                :: rest
           /\ Part0.inputValue (comp (snd (Part0.handleSend env q)))
              = lit ""))
  /\ (forall p : Page.W,
     (Page.sendDisabled p = true <-> snd (Page.handleSend env p) = p)
     /\ (Page.sendDisabled p = false ->
         exists rest,
           Page.messages (comp (snd (Page.handleSend env p)))
           = Page.messages (comp p)
             ++ user_message (now env (nowCalls p))
                  (Page.inputValue (comp p)) (date env (dateCalls p))
                :: rest
           /\ Page.inputValue (comp (snd (Page.handleSend env p)))
              = lit "")).
Proof.
  split.
  - intros q. split; [symmetry; apply part0_noop_iff_gate |].
    intros D.
    assert (A : part0_accepts q = true)
      by (unfold part0_accepts; fold (Part0.sendDisabled q); rewrite D;
          reflexivity).
    destruct (encodeURIComponent (Part0.inputValue (comp q))) as [e |] eqn:E.
    + rewrite (part0_handleSend_sent env q e A E). simpl.
      exists []. split; reflexivity.
    + rewrite (part0_handleSend_uri_error env q A E). simpl.
      rewrite <- app_assoc. eexists. split; reflexivity.
  - intros p. split; [symmetry; apply page_noop_iff_gate |].
    intros D.
    assert (A : page_accepts p = true)
      by (unfold page_accepts; fold (Page.sendDisabled p); rewrite D;
          reflexivity).
    destruct (encodeURIComponent (Page.inputValue (comp p))) as [e |] eqn:E.
    + rewrite (page_handleSend_sent env p e A E). simpl.
      exists []. split; reflexivity.
    + rewrite (page_handleSend_uri_error env p A E). simpl.
      rewrite <- app_assoc. eexists. split; reflexivity.
Qed.

Lemma send_button_matches_gate_witness :
  let q := Part0.step ticking (Change question) (Part0.initial ticking) in
  Part0.sendDisabled q = false
  /\ exists rest,
       Part0.messages (comp (snd (Part0.handleSend ticking q)))
       = Part0.messages (comp q)
         ++ user_message (now ticking (nowCalls q))
              (Part0.inputValue (comp q)) (date ticking (dateCalls q))
            :: rest
       /\ Part0.inputValue (comp (snd (Part0.handleSend ticking q)))
          = lit "".
Proof.
  intros q.
  exact (conj eq_refl
           (proj2 (proj1 (send_button_matches_gate ticking) q) eq_refl)).
Defined.

(* ================================================================== *)
(** ** A whole turn, and the end of a request                          *)
(* ================================================================== *)

(** X10: one turn of [part_000] from any idle state.  With no turn
    pending and a non-blank draft that encodes, a click followed by the
    end of the request leaves the session idle again, with the draft
    empty and exactly two messages added: the user message with the draft
    and one assistant message, the apology when the request failed and
    the value of [data.answer] otherwise. *)
Theorem part0_turn_returns_to_idle env (q : Part0.W) (e : jsstring)
    (o : outcome) :
  Part0.isLoading (comp q) = false -> inflight q = [] ->
  trim (Part0.inputValue (comp q)) <> [] ->
  encodeURIComponent (Part0.inputValue (comp q)) = Some e ->
  let q' := Part0.run env [Click; Settle 0 o] q in
  Part0.isLoading (comp q') = false
  /\ inflight q' = []
  /\ Part0.inputValue (comp q') = lit ""
  /\ exists i v,
       Part0.messages (comp q')
       = Part0.messages (comp q)
         ++ [user_message (now env (nowCalls q))
               (Part0.inputValue (comp q)) (date env (dateCalls q));
             assistant_message i v (date env (S (dateCalls q)))]
       /\ (fails o = true -> v = JStr apology)
       /\ (forall st d a,
             o = Response st (Some d) -> get_answer d = inr a -> v = a).
Proof.
  intros L F T E q'. subst q'.
  assert (A : part0_accepts q = true).
  { unfold part0_accepts. rewrite L.
    destruct (trim (Part0.inputValue (comp q))); [contradiction |].
    reflexivity. }
  rewrite part0_run_cons.
  change (Part0.step env Click q) with (snd (Part0.handleSend env q)).
  rewrite (part0_handleSend_sent env q e A E), F.
  rewrite part0_run_cons.
  cbn [Part0.step inflight app nth_error Part0.run fold_left snd].
  destruct (fails o) eqn:Fo.
  - rewrite (part0_settled_failure env o _ Fo). simpl.
    repeat split. eexists. eexists. rewrite <- app_assoc.
    split; [reflexivity |]. split; [reflexivity |].
    intros st d a -> G. destruct d; simpl in Fo, G; congruence.
  - pose proof Fo as Fo'. apply fails_spec in Fo'.
    destruct Fo' as (st & d & v & -> & G).
    rewrite (part0_settled_answer env st d v _ G). simpl.
    repeat split. eexists. eexists. rewrite <- app_assoc.
    split; [reflexivity |]. split; [discriminate |].
    intros st' d' a H G'. injection H as -> ->. congruence.
Qed.

Lemma part0_turn_returns_to_idle_witness :
  let q := Part0.run ticking
             [Change (lit "first"); Click; Settle 0 NetworkError;
              Change question]
             (Part0.initial ticking) in
  let q' := Part0.run ticking [Click; Settle 0 server_error] q in
  trim (Part0.inputValue (comp q)) <> []
  /\ Part0.isLoading (comp q') = false
  /\ inflight q' = []
  /\ Part0.inputValue (comp q') = lit "".
Proof.
  intros q q'.
  assert (T : trim (Part0.inputValue (comp q)) <> [])
    by (intros H; vm_compute in H; discriminate H).
  destruct (part0_turn_returns_to_idle ticking q _ server_error
              eq_refl eq_refl T eq_refl) as (A & B & C & _).
  exact (conj T (conj A (conj B C))).
Defined.

(** X11: the end of a request never touches the draft: what the user
    typed while waiting is still there, in both variants.  It takes that
    request, and no other, from the pending ones and adds exactly one
    message to the log, from the assistant; the end of a request that is
    not pending changes nothing. *)
Theorem settle_keeps_the_draft env (i : nat) (o : outcome) :
  (forall q : Part0.W,
     let q' := Part0.step env (Settle i o) q in
     Part0.inputValue (comp q') = Part0.inputValue (comp q)
     /\ match nth_error (inflight q) i with
        | Some _ =>
            inflight q' = firstn i (inflight q) ++ skipn (S i) (inflight q)
            /\ exists m, Part0.messages (comp q')
                         = Part0.messages (comp q) ++ [m]
                         /\ sender m = assistant
        | None => q' = q
        end)
  /\ (forall p : Page.W,
     let p' := Page.step env (Settle i o) p in
     Page.inputValue (comp p') = Page.inputValue (comp p)
     /\ match nth_error (inflight p) i with
        | Some _ =>
            inflight p' = firstn i (inflight p) ++ skipn (S i) (inflight p)
            /\ exists m, Page.messages (comp p')
                         = Page.messages (comp p) ++ [m]
                         /\ sender m = assistant
        | None => p' = p
        end).
Proof.
  split.
  - intros q q'. subst q'. cbn [Part0.step].
    destruct (nth_error (inflight q) i); [| split; reflexivity].
    destruct (fails o) eqn:F.
    + rewrite (part0_settled_failure env o _ F). simpl.
      repeat split. eexists. split; reflexivity.
    + apply fails_spec in F. destruct F as (st & d & v & -> & A).
      rewrite (part0_settled_answer env st d v _ A). simpl.
      repeat split. eexists. split; reflexivity.
  - intros p p'. subst p'. cbn [Page.step].
    destruct (nth_error (inflight p) i); [| split; reflexivity].
    destruct (fails o) eqn:F.
    + rewrite (page_settled_failure env o _ F). simpl.
      repeat split. eexists. split; reflexivity.
    + apply fails_spec in F. destruct F as (st & d & v & -> & A).
      rewrite (page_settled_answer env st d v _ A). simpl.
      repeat split. eexists. split; reflexivity.
Qed.

(* ================================================================== *)
(** ** What the gate lets through                                      *)
(* ================================================================== *)

Lemma trimStart_nil (s : jsstring) :
  trimStart s = [] <-> forallb isWhiteSpaceOrLineTerminator s = true.
Proof.
  induction s as [| c s IH]; simpl; [tauto |].
  destruct (isWhiteSpaceOrLineTerminator c); simpl; [exact IH |].
  split; discriminate.
Qed.

Lemma trimStart_head (s : jsstring) (c : N) (r : jsstring) :
  trimStart s = c :: r -> isWhiteSpaceOrLineTerminator c = false.
Proof.
  induction s as [| a s IH]; simpl; [discriminate |].
  destruct (isWhiteSpaceOrLineTerminator a) eqn:W; [exact IH |].
  intros H. injection H as -> _. exact W.
Qed.

Lemma forallb_rev (A : Type) (f : A -> bool) (l : list A) :
  forallb f (rev l) = forallb f l.
Proof.
  induction l as [| a l IH]; [reflexivity |].
  simpl. rewrite forallb_app, IH. simpl. rewrite andb_true_r.
  apply andb_comm.
Qed.

(** [trim] leaves nothing exactly when every code unit is white space or
    a line terminator. *)
Lemma trim_nil_iff (s : jsstring) :
  trim s = [] <-> forallb isWhiteSpaceOrLineTerminator s = true.
Proof.
  unfold trim, trimEnd. split.
  - intros H.
    apply (f_equal (@rev N)) in H. rewrite rev_involutive in H. simpl in H.
    apply trimStart_nil in H. rewrite forallb_rev in H.
    destruct (trimStart s) as [| c r] eqn:E; [apply trimStart_nil, E |].
    apply trimStart_head in E. simpl in H. rewrite E in H. discriminate H.
  - intros H. apply trimStart_nil in H. rewrite H. reflexivity.
Qed.

(** X12: which drafts [handleSend] ignores.  In both variants a draft is
    ignored exactly when every one of its code units is white space or a
    line terminator (blank, tab, line feed, no-break space, byte order
    mark, ...), the empty draft included; in [part_000] also whenever a
    turn is pending.  A draft with one other character is logged,
    blanks and all. *)
Theorem handleSend_ignores_blank_drafts_only env :
  (forall q : Part0.W,
     snd (Part0.handleSend env q) = q <->
     forallb isWhiteSpaceOrLineTerminator (Part0.inputValue (comp q)) = true
     \/ Part0.isLoading (comp q) = true)
  /\ (forall p : Page.W,
     snd (Page.handleSend env p) = p <->
     forallb isWhiteSpaceOrLineTerminator (Page.inputValue (comp p)) = true).
Proof.
  split.
  - intros q. rewrite part0_noop_iff_gate. unfold Part0.sendDisabled.
    rewrite orb_true_iff, <- trim_nil_iff.
    destruct (trim (Part0.inputValue (comp q))); simpl;
      intuition congruence.
  - intros p. rewrite page_noop_iff_gate. unfold Page.sendDisabled.
    rewrite <- trim_nil_iff.
    destruct (trim (Page.inputValue (comp p))); simpl;
      intuition congruence.
Qed.

(* ================================================================== *)
(** ** The query string of the request                                 *)
(* ================================================================== *)

Lemma in_range_spec (lo hi c : N) :
  in_range lo hi c = true <-> (lo <= c /\ c <= hi)%N.
Proof.
  unfold in_range. rewrite andb_true_iff, !N.leb_le. tauto.
Qed.

Lemma in_range_false (lo hi c : N) :
  in_range lo hi c = false <-> (c < lo \/ hi < c)%N.
Proof.
  unfold in_range. rewrite andb_false_iff, !N.leb_gt. tauto.
Qed.

Lemma pair_code_point_range (c d : N) :
  isLeadingSurrogate c = true -> isTrailingSurrogate d = true ->
  (65536 <= pair_code_point c d < 1114112)%N.
Proof.
  unfold isLeadingSurrogate, isTrailingSurrogate, pair_code_point.
  rewrite !in_range_spec. lia.
Qed.

(** How [encodeURIComponent] reads the first character. *)
Lemma encode_cons (c : N) (rest e : jsstring) :
  encodeURIComponent (c :: rest) = Some e ->
  exists cp rest' e',
    first_char c rest cp rest'
    /\ encodeURIComponent rest' = Some e'
    /\ e = match cp with None => c :: e' | Some n => escape n ++ e' end
    /\ (List.length rest' <= List.length rest)%nat.
Proof.
  simpl. destruct (uriUnreserved c) eqn:U.
  - destruct (encodeURIComponent rest) as [e' |] eqn:E; [| discriminate].
    simpl. intros H. injection H as <-.
    exists None, rest, e'. rewrite E.
    repeat split; [constructor; exact U | lia].
  - destruct (isTrailingSurrogate c) eqn:T; [discriminate |].
    destruct (isLeadingSurrogate c) eqn:L.
    + destruct rest as [| d rest']; [discriminate |].
      destruct (isTrailingSurrogate d) eqn:Td; [| discriminate].
      destruct (encodeURIComponent rest') as [e' |] eqn:E; [| discriminate].
      simpl. intros H. injection H as <-.
      exists (Some (pair_code_point c d)), rest', e'. rewrite E.
      repeat split; [| simpl; lia].
      apply first_pair; auto.
    + destruct (encodeURIComponent rest) as [e' |] eqn:E; [| discriminate].
      simpl. intros H. injection H as <-.
      exists (Some c), rest, e'. rewrite E.
      repeat split; [constructor; assumption | lia].
Qed.

Lemma first_char_bound (c : N) (rest : jsstring) (n : N) (rest' : jsstring) :
  first_char c rest (Some n) rest' -> (c < 65536)%N -> (n < 1114112)%N.
Proof.
  intros F B. inversion F; subst; [lia |].
  apply pair_code_point_range; assumption.
Qed.

Lemma first_char_rest (c : N) (rest : jsstring) cp (rest' : jsstring) :
  first_char c rest cp rest' ->
  Forall (fun u => (u < 65536)%N) rest ->
  Forall (fun u => (u < 65536)%N) rest'.
Proof.
  intros F B. inversion F; subst; try exact B.
  inversion B; assumption.
Qed.

Lemma shiftr_lt (a k b : N) : (a < b * 2 ^ k -> N.shiftr a k < b)%N.
Proof.
  intros H. rewrite N.shiftr_div_pow2.
  apply N.Div0.div_lt_upper_bound. lia.
Qed.

Lemma hexDigit_unreserved (d : N) :
  (d < 16)%N -> uriUnreserved (hexDigit d) = true.
Proof.
  intros H. unfold hexDigit, uriUnreserved, in_range.
  destruct (N.ltb_spec d 10).
  - assert (A : (48 <=? 48 + d)%N = true) by (apply N.leb_le; lia).
    assert (B : (48 + d <=? 57)%N = true) by (apply N.leb_le; lia).
    rewrite A, B. simpl. rewrite !orb_true_r. reflexivity.
  - assert (A : (65 <=? 55 + d)%N = true) by (apply N.leb_le; lia).
    assert (B : (55 + d <=? 90)%N = true) by (apply N.leb_le; lia).
    rewrite A, B. reflexivity.
Qed.

Lemma land_15 (a : N) : (N.land a 15 < 16)%N.
Proof.
  change 15%N with (N.ones 4). rewrite N.land_ones.
  apply N.mod_lt. discriminate.
Qed.

Lemma land_63 (a : N) : (N.land a 63 < 64)%N.
Proof.
  change 63%N with (N.ones 6). rewrite N.land_ones.
  apply N.mod_lt. discriminate.
Qed.

Lemma percent_safe (octet : N) :
  (octet < 256)%N -> forallb query_safe (percent octet) = true.
Proof.
  intros H. unfold percent. cbn [forallb]. unfold query_safe.
  rewrite (hexDigit_unreserved (N.shiftr octet 4))
    by (apply (shiftr_lt octet 4 16); change (octet < 256)%N; lia).
  rewrite (hexDigit_unreserved (N.land octet 15)) by apply land_15.
  reflexivity.
Qed.

Lemma utf8_octets (cp : N) :
  (cp < 1114112)%N -> Forall (fun b => (b < 256)%N) (utf8 cp).
Proof.
  intros H. unfold utf8.
  pose proof (land_63 cp). pose proof (land_63 (N.shiftr cp 6)).
  pose proof (land_63 (N.shiftr cp 12)).
  destruct (N.ltb_spec cp 128); [repeat constructor; lia |].
  destruct (N.ltb_spec cp 2048).
  { assert (N.shiftr cp 6 < 32)%N
      by (apply (shiftr_lt cp 6 32); change (cp < 2048)%N; lia).
    repeat (constructor; [lia |]). constructor. }
  destruct (N.ltb_spec cp 65536).
  { assert (N.shiftr cp 12 < 16)%N
      by (apply (shiftr_lt cp 12 16); change (cp < 65536)%N; lia).
    repeat (constructor; [lia |]). constructor. }
  assert (N.shiftr cp 18 < 5)%N
    by (apply (shiftr_lt cp 18 5); change (cp < 1310720)%N; lia).
  repeat (constructor; [lia |]). constructor.
Qed.

Lemma escape_safe (cp : N) :
  (cp < 1114112)%N -> forallb query_safe (escape cp) = true.
Proof.
  intros H. unfold escape. generalize (utf8 cp) (utf8_octets cp H).
  intros l O. induction O as [| b bs B _ IH]; [reflexivity |].
  cbn [flat_map]. rewrite forallb_app, (percent_safe b B). exact IH.
Qed.

Lemma encode_safe_bounded (n : nat) : forall s e,
  (List.length s <= n)%nat ->
  Forall (fun u => (u < 65536)%N) s ->
  encodeURIComponent s = Some e -> forallb query_safe e = true.
Proof.
  induction n as [| n IH]; intros s e Len B E.
  - destruct s; [| simpl in Len; lia]. injection E as <-. reflexivity.
  - destruct s as [| c rest]; [injection E as <-; reflexivity |].
    apply encode_cons in E. destruct E as (cp & rest' & e' & F & E' & -> & L).
    inversion B as [| ? ? Bc Brest]; subst.
    assert (S' : forallb query_safe e' = true).
    { apply (IH rest' e'); [simpl in Len; lia | | exact E'].
      exact (first_char_rest c rest cp rest' F Brest). }
    destruct cp as [cp |].
    + rewrite forallb_app, S', andb_true_r. apply escape_safe.
      exact (first_char_bound c rest cp rest' F Bc).
    + simpl. rewrite S', andb_true_r. unfold query_safe.
      inversion F; subst. rewrite H. reflexivity.
Qed.

Lemma encode_scalar_units (s : jsstring) :
  forallb scalar_unit s = true -> exists e, encodeURIComponent s = Some e.
Proof.
  induction s as [| c s IH]; intros H; [exists []; reflexivity |].
  simpl in H. apply andb_true_iff in H. destruct H as [Hc Hs].
  destruct (IH Hs) as [e E]. simpl. rewrite E.
  unfold scalar_unit in Hc. rewrite !andb_true_iff, !negb_true_iff in Hc.
  destruct Hc as [[_ L] T]. rewrite L, T.
  destruct (uriUnreserved c); eexists; reflexivity.
Qed.

(** X13: the request of an accepted turn.  For a draft of 16-bit code
    units, either [encodeURIComponent] accepts it, and then exactly one
    request is issued, a POST whose URL is the fixed endpoint followed
    only by unreserved characters and percent signs (no blank, [&], [=],
    [#] or [?] of the draft reaches the query as such); or the draft holds
    a surrogate code unit and no request is issued at all. *)
Theorem request_query_is_url_safe env (s : jsstring) :
  Forall (fun u => (u < 65536)%N) s -> trim s <> [] ->
  (forall q : Part0.W,
     Part0.isLoading (comp q) = false -> Part0.inputValue (comp q) = s ->
     match encodeURIComponent s with
     | Some e =>
         forallb query_safe e = true
         /\ inflight (snd (Part0.handleSend env q))
            = inflight q ++ [post (endpoint ++ e)]
     | None =>
         forallb scalar_unit s = false
         /\ inflight (snd (Part0.handleSend env q)) = inflight q
     end)
  /\ (forall p : Page.W,
     Page.inputValue (comp p) = s ->
     match encodeURIComponent s with
     | Some e =>
         forallb query_safe e = true
         /\ inflight (snd (Page.handleSend env p))
            = inflight p ++ [post (endpoint ++ e)]
     | None =>
         forallb scalar_unit s = false
         /\ inflight (snd (Page.handleSend env p)) = inflight p
     end).
Proof.
  intros B T.
  assert (G : is_empty (trim s) = false)
    by (destruct (trim s); [contradiction | reflexivity]).
  assert (N : encodeURIComponent s = None -> forallb scalar_unit s = false).
  { intros E. destruct (forallb scalar_unit s) eqn:S; [| reflexivity].
    destruct (encode_scalar_units s S) as [e E']. congruence. }
  split.
  - intros q L I.
    assert (A : part0_accepts q = true)
      by (unfold part0_accepts; rewrite I, G, L; reflexivity).
    destruct (encodeURIComponent s) as [e |] eqn:E.
    + split; [exact (encode_safe_bounded _ s e (le_n _) B E) |].
      rewrite <- I in E. rewrite (part0_handleSend_sent env q e A E).
      reflexivity.
    + split; [apply N; reflexivity |].
      rewrite <- I in E. rewrite (part0_handleSend_uri_error env q A E).
      reflexivity.
  - intros p I.
    assert (A : page_accepts p = true)
      by (unfold page_accepts; rewrite I, G; reflexivity).
    destruct (encodeURIComponent s) as [e |] eqn:E.
    + split; [exact (encode_safe_bounded _ s e (le_n _) B E) |].
      rewrite <- I in E. rewrite (page_handleSend_sent env p e A E).
      reflexivity.
    + split; [apply N; reflexivity |].
      rewrite <- I in E. rewrite (page_handleSend_uri_error env p A E).
      reflexivity.
Qed.

(* ================================================================== *)
(** ** The query determines the draft                                  *)
(* ================================================================== *)

Section QueryDeterminesDraft.
Local Open Scope N_scope.















End QueryDeterminesDraft.






Lemma request_query_is_url_safe_witness :
  let s := lit "a b&c=d?" in
  let q := Part0.step ticking (Change s) (Part0.initial ticking) in
  Forall (fun u => (u < 65536)%N) s
  /\ trim s <> []
  /\ inflight (snd (Part0.handleSend ticking q))
     = [post (lit "http://localhost:8000/chat?question=a%20b%26c%3Dd%3F")].
Proof.
  intros s q.
  assert (B : Forall (fun u => (u < 65536)%N) s) by (repeat constructor).
  assert (T : trim s <> [])
    by (intros H; vm_compute in H; discriminate H).
  pose proof (proj1 (request_query_is_url_safe ticking s B T)
                q eq_refl eq_refl) as H.
  exact (conj B (conj T (proj2 H))).
Defined.

Lemma handleSend_never_rejects_witness :
  let q := Part0.step ticking (Change question) (Part0.initial ticking) in
  fst (Part0.handleSend ticking q) = Suspended
  /\ List.length (inflight (snd (Part0.handleSend ticking q))) = 1%nat.
Proof.
  intros q.
  destruct (handleSend_never_rejects ticking) as (_ & _ & _ & _ & S & _).
  exact (conj eq_refl (proj1 (S q) eq_refl)).
Defined.

Lemma handleSend_ignores_blank_drafts_only_witness :
  let q := Part0.step ticking (Change [9; 160; 32; 65279; 8232]%N)
             (Part0.initial ticking) in
  forallb isWhiteSpaceOrLineTerminator (Part0.inputValue (comp q)) = true
  /\ snd (Part0.handleSend ticking q) = q.
Proof.
  intros q.
  exact (conj eq_refl
           (proj2 (proj1 (handleSend_ignores_blank_drafts_only ticking) q)
              (or_introl eq_refl))).
Defined.

(* ================================================================== *)
(** ** The loading indicator of [part_000]                             *)
(* ================================================================== *)

Lemma last_map_sender (ms : list Message) (d : Message) :
  last (map sender ms) (sender d) = sender (last ms d).
Proof.
  induction ms as [| m ms IH]; [reflexivity |].
  destruct ms as [| m' ms']; [reflexivity |]. exact IH.
Qed.

Lemma last_turns (n : nat) (d : Sender) :
  last (assistant :: turns n) d = assistant.
Proof.
  induction n as [| n IH]; [reflexivity |].
  change (turns (S n)) with (user :: assistant :: turns n).
  exact IH.
Qed.

Lemma last_snoc (A : Type) (l : list A) (a d : A) : last (l ++ [a]) d = a.
Proof.
  induction l as [| x l IH]; [reflexivity |].
  simpl. destruct (l ++ [a]) eqn:E; [| exact IH].
  destruct l; discriminate E.
Qed.

(** X15: in every state [part_000] reaches, the loading indicator (the
    "Thinking..." row and the spinner of the send button, both shown
    under [isLoading]) is up exactly when the last message of the log is
    a user message, that is a question still without its reply. *)
Theorem spinner_iff_last_is_question env (evs : list event) :
  let w := Part0.run env evs (Part0.initial env) in
  Part0.loadingIndicator w = true
  <-> sender (last (Part0.messages (comp w)) (seed 0)) = user.
Proof.
  intros w. unfold Part0.loadingIndicator.
  destruct (part0_log_is_shaped_run env evs) as [n Sh].
  fold w in Sh.
  rewrite <- (last_map_sender (Part0.messages (comp w)) (seed 0)), Sh.
  destruct (Part0.isLoading (comp w)).
  - rewrite app_comm_cons, last_snoc. split; reflexivity.
  - rewrite app_nil_r, last_turns. split; discriminate.
Qed.

Lemma spinner_iff_last_is_question_witness :
  let w := Part0.run ticking
             [Change (lit "first"); Click; Settle 0 server_error;
              Change question; KeyDown Enter]
             (Part0.initial ticking) in
  sender (last (Part0.messages (comp w)) (seed 0)) = user
  /\ Part0.loadingIndicator w = true.
Proof.
  intros w.
  assert (U : sender (last (Part0.messages (comp w)) (seed 0)) = user)
    by reflexivity.
  exact (conj U
           (proj2 (spinner_iff_last_is_question ticking
                     [Change (lit "first"); Click; Settle 0 server_error;
                      Change question; KeyDown Enter]) U)).
Defined.
